(** * SpaceX launch-records dashboard: a shallow embedding of
      [spacex-dash-app.py] and the properties of its two callbacks and of
      its start-up port selection.

    The script has three pieces of logic of its own:
    - [get_pie_chart]     (lines 62-86),
    - [get_scatter_chart] (lines 93-109),
    - the [__main__] block that picks the port (lines 112-144).
    Everything else is layout.  pandas, plotly and the interpreter's
    builtins are modelled by the few operations the script calls. *)

From Stdlib Require Import ZArith Floats Lia Ascii String.
From stdpp Require Import prelude strings pretty sorting.

Local Open Scope Z_scope.
Local Open Scope string_scope.

(* ===================================================================== *)
(** ** pandas: the table, its columns, boolean indexing, value_counts     *)
(* ===================================================================== *)

Module Pandas.

(** One launch record: the four columns of the CSV the script reads.
    [Payload Mass (kg)] is a float64 column (NaN included), [class] an
    int64 one, the two others hold text; no cell of these three is
    missing. *)
Record Row := mkRow {
  Launch_Site : string;
  Payload_Mass : float;
  class : Z;
  Booster_Version_Category : string
}.

Abbreviation DataFrame := (list Row).

(** A column (or any Series) is the list of its values in row order. *)
Abbreviation Series := list.

(** [df['col']] *)
Definition column {A} (col : Row -> A) (df : DataFrame) : Series A :=
  map col df.

(** [series == 1] on an integer column. *)
Definition eq_int (s : Series Z) (x : Z) : Series bool :=
  map (fun v => Z.eqb v x) s.

(** [series == 'name'] on a string column. *)
Definition eq_str (s : Series string) (x : string) : Series bool :=
  map (fun v => String.eqb v x) s.

(** [series >= x] and [series <= x] on a float column, with the IEEE 754
    comparison of binary64 (false as soon as one side is NaN). *)
Definition ge_float (s : Series float) (x : float) : Series bool :=
  map (fun v => PrimFloat.leb x v) s.

Definition le_float (s : Series float) (x : float) : Series bool :=
  map (fun v => PrimFloat.leb v x) s.

(** [mask1 & mask2] *)
Definition mask_and (m1 m2 : Series bool) : Series bool :=
  zip_with andb m1 m2.

(** [xs[mask]]: the entries whose mask bit is set, in order.  Every mask
    of the script is computed from the frame it indexes, so both have
    one length; pandas rejects other masks, which never arise here. *)
Fixpoint bool_index {A} (xs : list A) (mask : Series bool) : list A :=
  match xs, mask with
  | x :: xs', b :: mask' =>
      if b then x :: bool_index xs' mask' else bool_index xs' mask'
  | _, _ => []
  end.

(** The distinct values of a series, in order of first appearance. *)
Fixpoint unique (xs : Series string) : list string :=
  match xs with
  | [] => []
  | x :: xs' => x :: List.filter (fun y => negb (String.eqb y x)) (unique xs')
  end.

(** How often [k] occurs in the series. *)
Definition occurrences (k : string) (xs : Series string) : nat :=
  length (List.filter (String.eqb k) xs).

(** Sorting by count, largest first.  [insert_desc] puts an entry before
    the first one that is not larger, so entries of equal count keep the
    order they had; which order pandas gives to ties is its own affair
    and nothing below depends on it. *)
Fixpoint insert_desc (e : string * nat) (l : list (string * nat))
  : list (string * nat) :=
  match l with
  | [] => [e]
  | h :: t => if (h.2 <=? e.2)%nat then e :: h :: t else h :: insert_desc e t
  end.

Definition sort_desc (l : list (string * nat)) : list (string * nat) :=
  foldr insert_desc [] l.

(** [series.value_counts()]: a series indexed by the distinct values,
    holding their counts, sorted by count in descending order. *)
Definition value_counts (xs : Series string) : list (string * nat) :=
  sort_desc (map (fun k => (k, occurrences k xs)) (unique xs)).

(** [.index] and [.values] of such a series. *)
Definition index (s : list (string * nat)) : list string := map fst s.
Definition values (s : list (string * nat)) : list nat := map snd s.

End Pandas.

(* ===================================================================== *)
(** ** plotly.express: the figures the callbacks return                   *)
(* ===================================================================== *)

Module Plotly.
Import Pandas.

(** A figure is what the plotting call was given to draw: a pie is its
    slice names and slice values, a scatter the frame it plots (one
    point per row) and the columns it reads. *)
Inductive Figure :=
| Pie (names : list string) (slice_values : list nat) (title : string)
| Scatter (data : DataFrame) (x y color title : string)
          (labels : list (string * string)).

(** [px.pie(values=..., names=..., title=...)] *)
Definition px_pie (vals : list nat) (names : list string) (title : string)
  : Figure :=
  Pie names vals title.

(** The two-column frame of the single-site pie,
    [pd.DataFrame({'Outcome': [...], 'Count': [...]})]. *)
Record OutcomeFrame := mkOutcomeFrame {
  Outcome : list string;
  Count : list nat
}.

(** [px.pie(pie_data, values='Count', names='Outcome', title=...)] *)
Definition px_pie_frame (pie_data : OutcomeFrame) (title : string) : Figure :=
  Pie (Outcome pie_data) (Count pie_data) title.

(** [px.scatter(df, x=..., y=..., color=..., title=..., labels=...)] *)
Definition px_scatter (df : DataFrame) (x y color title : string)
                      (labels : list (string * string)) : Figure :=
  Scatter df x y color title labels.

(** A drawn point: payload mass on x, outcome class on y, coloured by
    booster version category. *)
Definition point_of (r : Row) : float * Z * string :=
  (Payload_Mass r, class r, Booster_Version_Category r).

(** [px.scatter] with [color=] draws one trace for each value of the
    colour column, the values taken in the order they first appear; a
    trace holds the points of the rows with that value, in frame order. *)
Definition trace_rows (data : DataFrame) (category : string) : DataFrame :=
  List.filter (fun r => String.eqb (Booster_Version_Category r) category) data.

Definition traces (fig : Figure)
  : list (string * list (float * Z * string)) :=
  match fig with
  | Scatter data _ _ _ _ _ =>
      map (fun category => (category, map point_of (trace_rows data category)))
          (unique (column Booster_Version_Category data))
  | Pie _ _ _ => []
  end.

(** The points of a figure, trace after trace. *)
Definition points (fig : Figure) : list (float * Z * string) :=
  concat (map snd (traces fig)).

(** The slices of a pie: their names, their values, and both paired. *)
Definition slice_names (fig : Figure) : list string :=
  match fig with
  | Pie names _ _ => names
  | Scatter _ _ _ _ _ _ => []
  end.

Definition slice_values (fig : Figure) : list nat :=
  match fig with
  | Pie _ vals _ => vals
  | Scatter _ _ _ _ _ _ => []
  end.


(** The rows a scatter figure plots. *)
Definition plotted (fig : Figure) : DataFrame :=
  match fig with
  | Scatter data _ _ _ _ _ => data
  | Pie _ _ _ => []
  end.

End Plotly.

(* ===================================================================== *)
(** ** The callbacks                                                      *)
(* ===================================================================== *)

Module Dashboard.
Import Pandas Plotly.

(** The module-level state the callbacks can see: the loaded table. *)
Record Globals := mkGlobals { spacex_df : DataFrame }.

(** Python exceptions a callback can raise. *)
Inductive Exn := IndexError.

Inductive Result (A : Type) :=
| Ok (a : A)
| Raise (e : Exn).
Arguments Ok {A} a.
Arguments Raise {A} e.

(** Computations over the globals that may raise. *)
Definition M (A : Type) : Type := Globals -> Result A * Globals.

Definition ret {A} (a : A) : M A := fun g => (Ok a, g).

Definition bind {A B} (m : M A) (k : A -> M B) : M B :=
  fun g =>
    match m g with
    | (Ok a, g') => k a g'
    | (Raise e, g') => (Raise e, g')
    end.

Definition raise {A} (e : Exn) : M A := fun g => (Raise e, g).

(** Reading the global name [spacex_df]. *)
Definition load_spacex_df : M DataFrame := fun g => (Ok (spacex_df g), g).

(** [lst[i]] on a Python list. *)
Definition getitem {A} (lst : list A) (i : nat) : M A :=
  match lst !! i with
  | Some a => ret a
  | None => raise IndexError
  end.

Notation "'let*' x := m 'in' k" := (bind m (fun x => k))
  (at level 10, x name, m at level 100, k at level 200).

(** Lines 62-86. *)
Definition get_pie_chart (entered_site : string) : M Figure :=
  if String.eqb entered_site "ALL" then
    let* df := load_spacex_df in
    let* df' := load_spacex_df in
    let success_by_site :=
      value_counts
        (column Launch_Site (bool_index df (eq_int (column class df') 1))) in
    let fig := px_pie (values success_by_site) (index success_by_site)
                      "Total Success Launches by Site" in
    ret fig
  else
    let* df := load_spacex_df in
    let* df' := load_spacex_df in
    let filtered_df :=
      bool_index df (eq_str (column Launch_Site df') entered_site) in
    let success_count :=
      length (bool_index filtered_df (eq_int (column class filtered_df) 1)) in
    let failed_count :=
      length (bool_index filtered_df (eq_int (column class filtered_df) 0)) in
    let pie_data :=
      mkOutcomeFrame ["Success"; "Failed"] [success_count; failed_count] in
    let fig := px_pie_frame pie_data
                 ("Success vs Failed Launches for " ++ entered_site) in
    ret fig.

(** Lines 93-109.  The slider hands over a list of numbers, compared
    with the float64 column as binary64 values; indexing the list past
    its end raises. *)
Definition get_scatter_chart (entered_site : string)
                             (payload_range : list float) : M Figure :=
  let* df := load_spacex_df in
  let* df1 := load_spacex_df in
  let* lo := getitem payload_range 0 in
  let* df2 := load_spacex_df in
  let* hi := getitem payload_range 1 in
  let filtered_df :=
    bool_index df (mask_and (ge_float (column Payload_Mass df1) lo)
                            (le_float (column Payload_Mass df2) hi)) in
  let filtered_df :=
    if negb (String.eqb entered_site "ALL")
    then bool_index filtered_df
           (eq_str (column Launch_Site filtered_df) entered_site)
    else filtered_df in
  let fig := px_scatter filtered_df
               "Payload Mass (kg)" "class" "Booster Version Category"
               "Correlation between Payload Mass and Launch Success"
               [("class", "Launch Outcome (1=Success, 0=Failed)")] in
  ret fig.

(** What the framework does with the two callbacks: each change of the
    dropdown or of the slider runs one of them, one at a time, on the
    globals the previous one left; a callback that raises does not stop
    the server. *)
Inductive Invocation :=
| PieCall (entered_site : string)
| ScatterCall (entered_site : string) (payload_range : list float).

Definition invoke (c : Invocation) : M Figure :=
  match c with
  | PieCall s => get_pie_chart s
  | ScatterCall s r => get_scatter_chart s r
  end.

Fixpoint serve (cs : list Invocation) (g : Globals)
  : list (Result Figure) * Globals :=
  match cs with
  | [] => ([], g)
  | c :: cs' =>
      let (r, g') := invoke c g in
      let (rs, g'') := serve cs' g' in
      (r :: rs, g'')
  end.

End Dashboard.

(* ===================================================================== *)
(** ** Start-up: choosing the port (the [__main__] block)                 *)
(* ===================================================================== *)

Module Startup.

(** What a run of the block does to the outside, in order: the lines it
    prints and the connection attempts it makes to 127.0.0.1. *)
Inductive Event :=
| Print (line : string)
| ConnectEx (port : Z).

(** How the block ends: in [app.run(debug=True, port=port)] or in
    [sys.exit(code)]. *)
Inductive Outcome :=
| AppRun (port : Z)
| SysExit (code : Z).

(** A piece of the block: the events it caused, and either its value or
    the status it exited with. *)
Definition Prog (A : Type) : Type := list Event * (A + Z).

Definition pure {A} (a : A) : Prog A := ([], inl a).

Definition seq {A B} (m : Prog A) (k : A -> Prog B) : Prog B :=
  match m with
  | (t, inl a) => let (t', r) := k a in ((t ++ t')%list, r)
  | (t, inr code) => (t, inr code)
  end.

Definition print (line : string) : Prog unit := ([Print line], inl tt).

Definition sys_exit {A} (code : Z) : Prog A := ([], inr code).

Notation "'do' x := m 'in' k" := (seq m (fun x => k))
  (at level 10, x name, m at level 100, k at level 200).
Notation "m ;; k" := (seq m (fun _ => k))
  (at level 100, right associativity).

Section Block.

(** The builtin [int] on a command-line string: [None] stands for
    [ValueError]. *)
Variable int : string -> option Z.

(** What [s.connect_ex(('127.0.0.1', port))] returns for each port:
    0 when something accepted the connection, an errno otherwise.
    The block asks about each port at most once. *)
Variable connect_ex : Z -> Z.

(** Lines 127-129. *)
Definition is_port_available (port : Z) : Prog bool :=
  ([ConnectEx port], inl (negb (connect_ex port =? 0)%Z)).

(** Lines 134-142, the [for ... else]: the value is the port set
    before [break]; the [else] arm runs when the list is used up. *)
Fixpoint try_alt_ports (alts : list Z) : Prog Z :=
  match alts with
  | [] =>
      print "No available ports found in range 8050-8055." ;;
      print "Please specify a different port: python3.11 spacex-dash-app.py <port_number>" ;;
      sys_exit 1
  | alt_port :: rest =>
      do free := is_port_available alt_port in
      if free then
        let port := alt_port in
        print ("Using port " ++ pretty port ++ " instead.") ;;
        pure port
      else try_alt_ports rest
  end.

(** Lines 116-142: the value is [port] as it stands before line 144. *)
Definition select_port (argv : list string) : Prog Z :=
  let port := 8050 in
  match argv with
  | _ :: arg :: _ =>
      (* len(sys.argv) > 1 *)
      match int arg with
      | Some port =>
          print ("Using specified port: " ++ pretty port) ;;
          pure port
      | None =>
          print ("Invalid port number: " ++ arg ++ ". Using default port 8050.") ;;
          pure 8050
      end
  | _ =>
      do free := is_port_available 8050 in
      if negb free then
        print "Port 8050 is in use. Trying alternative ports..." ;;
        try_alt_ports [8051; 8052; 8053; 8054; 8055]
      else pure port
  end.

(** Lines 112-144. *)
Definition main (argv : list string) : list Event * Outcome :=
  match select_port argv with
  | (t, inl port) => (t, AppRun port)
  | (t, inr code) => (t, SysExit code)
  end.

(** The ports a run asked about, in the order it asked. *)
Definition probes (t : list Event) : list Z :=
  omap (fun e => match e with ConnectEx p => Some p | Print _ => None end) t.

(** The lines a run printed, in order. *)
Definition printed (t : list Event) : list string :=
  omap (fun e => match e with Print l => Some l | ConnectEx _ => None end) t.

End Block.

(** [int] on a command-line word, to run the block on concrete command
    lines: what CPython 3.11 does with its default settings where the
    command line is UTF-8.  The bytes of the word are decoded; a
    character from 127 on is brought to ASCII, white space to a blank and
    a decimal digit of any script to its ASCII digit, and any other makes
    the word unreadable; the result is read as white space, an optional
    sign, then decimal digits, single underscores allowed between digits,
    4300 digits at most. *)

(** The payload of a continuation byte. *)
Definition continuation (b : N) : option N :=
  if ((128 <=? b) && (b <=? 191))%N then Some (b - 128)%N else None.

(** The code points of a well-formed UTF-8 byte sequence: shortest forms
    only, no surrogate, nothing above U+10FFFF. *)
Fixpoint utf8_decode (bs : list N) : option (list N) :=
  match bs with
  | [] => Some []
  | b0 :: rest0 =>
      if (b0 <? 128)%N then cons b0 <$> utf8_decode rest0
      else if ((194 <=? b0) && (b0 <=? 223))%N then
        match rest0 with
        | b1 :: rest1 =>
            match continuation b1 with
            | Some c1 => cons ((b0 - 192) * 64 + c1)%N <$> utf8_decode rest1
            | None => None
            end
        | _ => None
        end
      else if ((224 <=? b0) && (b0 <=? 239))%N then
        match rest0 with
        | b1 :: b2 :: rest2 =>
            match continuation b1, continuation b2 with
            | Some c1, Some c2 =>
                let cp := (((b0 - 224) * 64 + c1) * 64 + c2)%N in
                if ((2048 <=? cp) && negb ((55296 <=? cp) && (cp <=? 57343)))%N
                then cons cp <$> utf8_decode rest2
                else None
            | _, _ => None
            end
        | _ => None
        end
      else if ((240 <=? b0) && (b0 <=? 244))%N then
        match rest0 with
        | b1 :: b2 :: b3 :: rest3 =>
            match continuation b1, continuation b2, continuation b3 with
            | Some c1, Some c2, Some c3 =>
                let cp := ((((b0 - 240) * 64 + c1) * 64 + c2) * 64 + c3)%N in
                if ((65536 <=? cp) && (cp <=? 1114111))%N
                then cons cp <$> utf8_decode rest3
                else None
            | _, _, _ => None
            end
        | _ => None
        end
      else None
  end.

(** The white space characters from 127 on. *)
Definition unicode_spaces : list N :=
  [133; 160; 5760; 8192; 8193; 8194; 8195; 8196; 8197; 8198; 8199; 8200;
   8201; 8202; 8232; 8233; 8239; 8287; 12288]%N.

(** The zero of every run of ten decimal digits from 127 on (Unicode
    14.0, the version of CPython 3.11). *)
Definition unicode_zeros : list N :=
  [1632; 1776; 1984; 2406; 2534; 2662; 2790; 2918; 3046; 3174; 3302; 3430;
   3558; 3664; 3792; 3872; 4160; 4240; 6112; 6160; 6470; 6608; 6784; 6800;
   6992; 7088; 7232; 7248; 42528; 43216; 43264; 43472; 43504; 43600; 44016;
   65296; 66720; 68912; 69734; 69872; 69942; 70096; 70384; 70736; 70864;
   71248; 71360; 71472; 71904; 72016; 72784; 73040; 73120; 92768; 92864;
   93008; 120782; 120792; 120802; 120812; 120822; 123200; 123632; 125264;
   130032]%N.

Definition unicode_decimal (cp : N) : option N :=
  (fun zero => (cp - zero)%N)
    <$> List.find (fun zero => ((zero <=? cp) && (cp <? zero + 10))%N)
                  unicode_zeros.

(** One character brought to ASCII. *)
Definition to_ascii (cp : N) : option N :=
  if (cp <? 127)%N then Some cp
  else if existsb (N.eqb cp) unicode_spaces then Some 32%N
  else (fun d => (48 + d)%N) <$> unicode_decimal cp.

Definition is_space (c : N) : bool :=
  ((9 <=? c) && (c <=? 13) || (c =? 32))%N.

Definition digit_of (c : N) : option Z :=
  if ((48 <=? c) && (c <=? 57))%N then Some (Z.of_N c - 48) else None.

Fixpoint digits (s : list N) (acc : Z) (after_digit : bool) : option Z :=
  match s with
  | [] => if after_digit then Some acc else None
  | c :: rest =>
      match digit_of c with
      | Some d => digits rest (10 * acc + d) true
      | None =>
          if (c =? 95)%N && after_digit then digits rest acc false
          else None
      end
  end.

Fixpoint lstrip (s : list N) : list N :=
  match s with
  | c :: rest => if is_space c then lstrip rest else s
  | [] => []
  end.

(** The limit on the number of digits. *)
Definition max_str_digits : nat := 4300.

Definition count_digits (ds : list N) : nat :=
  length (List.filter (fun c => bool_decide (is_Some (digit_of c))) ds).

Definition signed_digits (negative : bool) (ds : list N) : option Z :=
  if (max_str_digits <? count_digits ds)%nat then None
  else (fun n => if negative then (- n)%Z else n) <$> digits ds 0 false.

Definition int_ascii (s : string) : option Z :=
  match utf8_decode (N_of_ascii <$> list_ascii_of_string s) with
  | None => None
  | Some cps =>
      match mapM to_ascii cps with
      | None => None
      | Some chars =>
          match rev (lstrip (rev (lstrip chars))) with
          | 45%N :: rest => signed_digits true rest
          | 43%N :: rest => signed_digits false rest
          | body => signed_digits false body
          end
      end
  end.

End Startup.

(* ===================================================================== *)
(** ** The module-level code: what is computed once the table is loaded   *)
(* ===================================================================== *)

Module Layout.
Import Pandas.

(** pandas' [isna] on a float: NaN is the value that differs from
    itself. *)
Definition isna (v : float) : bool := negb (PrimFloat.eqb v v).

(** The values a reduction with [skipna=True] looks at. *)
Definition dropna (s : Series float) : Series float :=
  List.filter (fun v => negb (isna v)) s.

(** [series.max()] and [series.min()]: the largest and the smallest of
    the values present, NaN when there is none. *)
Definition series_max (s : Series float) : float :=
  match dropna s with
  | [] => nan
  | v :: vs => foldl (fun m x => if PrimFloat.leb m x then x else m) v vs
  end.

Definition series_min (s : Series float) : float :=
  match dropna s with
  | [] => nan
  | v :: vs => foldl (fun m x => if PrimFloat.leb x m then x else m) v vs
  end.

(** An entry of the dropdown, [{'label': ..., 'value': ...}]. *)
Record DropdownOption := mkOption {
  label : string;
  value : string
}.

Section Loaded.

(** The table as line 10 read it. *)
Variable spacex_df : DataFrame.

(** Lines 11-12. *)
Definition max_payload : float := series_max (column Payload_Mass spacex_df).
Definition min_payload : float := series_min (column Payload_Mass spacex_df).

(** Line 15, [spacex_df['Launch Site'].unique().tolist()]. *)
Definition unique_sites : list string := unique (column Launch_Site spacex_df).

(** Lines 16-17. *)
Definition site_options : list DropdownOption :=
  ([mkOption "All Sites" "ALL"]
   ++ map (fun site => mkOption site site) unique_sites)%list.

(** Line 30, the value the dropdown starts with. *)
Definition dropdown_value : string := "ALL".

(** Line 51, the value the slider starts with. *)
Definition slider_value : list float := [min_payload; max_payload].

End Loaded.

End Layout.

(* ===================================================================== *)
(** ** The views the callbacks compute, as filters of the table           *)
(* ===================================================================== *)

Module Views.
Import Pandas Plotly Dashboard.

(** The payload of a row lies in the closed range, as the two
    comparisons of line 95-96 decide it. *)
Definition in_range (lo hi : float) (r : Row) : Prop :=
  PrimFloat.leb lo (Payload_Mass r) = true /\
  PrimFloat.leb (Payload_Mass r) hi = true.

#[global] Instance in_range_dec lo hi r : Decision (in_range lo hi r) :=
  and_dec _ _.

(** The launch sites of the successful rows, row by row. *)
Definition successes (df : DataFrame) : Series string :=
  Launch_Site <$> filter (fun r => class r = 1) df.

(** The rows the scatter chart keeps. *)
Definition scatter_rows (s : string) (lo hi : float) (df : DataFrame)
  : DataFrame :=
  if negb (String.eqb s "ALL")
  then filter (fun r => Launch_Site r = s) (filter (in_range lo hi) df)
  else filter (in_range lo hi) df.

Definition scatter_of (rows : DataFrame) : Figure :=
  Scatter rows "Payload Mass (kg)" "class" "Booster Version Category"
          "Correlation between Payload Mass and Launch Success"
          [("class", "Launch Outcome (1=Success, 0=Failed)")].

(** A small table to run the callbacks on. *)
Definition sample_table : DataFrame :=
  [ mkRow "CCAFS LC-40" 0%float 0 "v1.0";
    mkRow "CCAFS LC-40" 525%float 0 "v1.0";
    mkRow "VAFB SLC-4E" 500%float 0 "v1.1";
    mkRow "CCAFS LC-40" 3170%float 1 "v1.1";
    mkRow "KSC LC-39A" 2490%float 1 "FT";
    mkRow "KSC LC-39A" 5600%float 1 "FT";
    mkRow "VAFB SLC-4E" 9600%float 1 "B4";
    mkRow "KSC LC-39A" 6070%float 0 "FT" ].

Definition sample_globals : Globals := mkGlobals sample_table.

End Views.

(* ===================================================================== *)
(** ** The terms in which the port selection is described                 *)
(* ===================================================================== *)

Module StartupTerms.
Import Startup.

(** The ports of the search, the default first. *)
Definition alternates : list Z := [8051; 8052; 8053; 8054; 8055].
Definition candidates : list Z := 8050 :: alternates.

(** The lines the block prints when something went wrong. *)
Definition invalid_port_warning (arg : string) : string :=
  "Invalid port number: " ++ arg ++ ". Using default port 8050.".

Definition no_port_report : list string :=
  [ "No available ports found in range 8050-8055.";
    "Please specify a different port: python3.11 spacex-dash-app.py <port_number>" ].

Definition failure_line (line : string) : Prop :=
  (exists arg, line = invalid_port_warning arg) \/ line ∈ no_port_report.

(** A port is occupied when the connection attempt succeeds. *)
Definition occupied (connect_ex : Z -> Z) (port : Z) : Prop :=
  connect_ex port = 0.

#[global] Instance occupied_dec connect_ex port
  : Decision (occupied connect_ex port) := Z.eq_dec _ _.

(** Ports 8050 to 8052 taken, the others free. *)
Definition three_taken (port : Z) : Z :=
  if (port <? 8053)%Z then 0 else 111.

(** Every port taken. *)
Definition all_taken (port : Z) : Z := 0.

End StartupTerms.

(* ===================================================================== *)
(** ** Further terms: the order of counts, and tables to run on           *)
(* ===================================================================== *)

Module MoreTerms.
Import Pandas Dashboard.

(** An entry comes before another when its count is not smaller. *)
Definition by_count_desc (a b : string * nat) : Prop := (b.2 <= a.2)%nat.

(** A table with a payload that is missing and an outcome that is
    neither 0 nor 1. *)
Definition ragged_table : DataFrame :=
  [ mkRow "CCAFS LC-40" 525%float 0 "v1.0";
    mkRow "KSC LC-39A" nan 1 "FT";
    mkRow "KSC LC-39A" 5600%float 1 "FT";
    mkRow "CCAFS LC-40" 3170%float 2 "v1.1";
    mkRow "VAFB SLC-4E" 9600%float 1 "B4";
    mkRow "KSC LC-39A" 6070%float 0 "FT" ].

Definition ragged_globals : Globals := mkGlobals ragged_table.

(** What is known of the result of [value_counts]: it holds the distinct
    values with their counts, larger counts first.  Which of two values
    of equal count comes first is pandas' affair and is left open. *)
Definition counts_of (xs : Series string) (vc : list (string * nat)) : Prop :=
  vc ≡ₚ (fun k => (k, occurrences k xs)) <$> unique xs /\
  StronglySorted by_count_desc vc.

(** The figures an invocation may return on the globals [g], with the
    order of tied counts left open.  Lines 63-69 for 'ALL'; the other
    paths, which sort nothing, are as the callbacks compute them. *)
Inductive outcome (g : Globals) : Invocation -> Plotly.Figure -> Prop :=
| outcome_pie_all vc :
    counts_of (column Launch_Site
                 (bool_index (spacex_df g)
                             (eq_int (column class (spacex_df g)) 1))) vc ->
    outcome g (PieCall "ALL")
            (Plotly.px_pie (values vc) (index vc)
                           "Total Success Launches by Site")
| outcome_pie_site s fig :
    s <> "ALL" -> (get_pie_chart s g).1 = Ok fig ->
    outcome g (PieCall s) fig
| outcome_scatter s rng fig :
    (get_scatter_chart s rng g).1 = Ok fig ->
    outcome g (ScatterCall s rng) fig.

(** No port taken: every connection attempt is refused. *)
Definition none_taken (port : Z) : Z := 111.

End MoreTerms.

(* ===================================================================== *)
(** ** Facts about the pandas operations                                  *)
(* ===================================================================== *)

Module PandasFacts.
Import Pandas MoreTerms.

Section Masks.
Context {A : Type}.
Implicit Types (xs : list A) (f g : A -> bool).

(** Indexing a list by a mask computed from that list is a filter. *)
Lemma bool_index_map f xs : bool_index xs (map f xs) = List.filter f xs.
Proof.
  induction xs as [|x xs IH]; simpl; [done|].
  rewrite IH. by destruct (f x).
Qed.

Lemma mask_and_map f g xs :
  mask_and (map f xs) (map g xs) = map (fun x => f x && g x) xs.
Proof.
  unfold mask_and. induction xs as [|x xs IH]; simpl; [done|].
  by rewrite IH.
Qed.

(** A boolean filter is the filter of the property it decides. *)
Lemma bool_filter_prop f (P : A -> Prop) `{!forall x, Decision (P x)} xs :
  (forall x, f x = true <-> P x) -> List.filter f xs = filter P xs.
Proof.
  intros Hf. induction xs as [|x xs IH]; simpl; [done|].
  rewrite filter_cons, IH.
  destruct (f x) eqn:E, (decide (P x)) as [HP|HP]; try done.
  - destruct HP. by apply Hf.
  - apply Hf in HP. congruence.
Qed.

Lemma bool_index_prop f (P : A -> Prop) `{!forall x, Decision (P x)} xs :
  (forall x, f x = true <-> P x) -> bool_index xs (map f xs) = filter P xs.
Proof. intros. rewrite bool_index_map. by apply bool_filter_prop. Qed.

(** Filtering by a property of an image, before or after the map. *)
Lemma filter_fmap_comm {B} (h : A -> B) (Q : B -> Prop)
      `{!forall y, Decision (Q y)} xs :
  filter Q (h <$> xs) = h <$> filter (fun x => Q (h x)) xs.
Proof.
  induction xs as [|x xs IH]; [done|].
  rewrite fmap_cons, !filter_cons, IH. by destruct (decide (Q (h x))).
Qed.
End Masks.

(** *** Sorting only reorders *)

Lemma insert_desc_perm e l : insert_desc e l ≡ₚ e :: l.
Proof.
  induction l as [|h t IH]; simpl; [done|].
  destruct (h.2 <=? e.2)%nat; [done|].
  rewrite IH. apply Permutation_swap.
Qed.

Lemma sort_desc_perm l : sort_desc l ≡ₚ l.
Proof.
  unfold sort_desc. induction l as [|h t IH]; simpl; [done|].
  by rewrite insert_desc_perm, IH.
Qed.

(** *** [unique] *)

Lemma unique_filter x xs :
  List.filter (fun y => negb (String.eqb y x)) xs = filter (fun y => y <> x) xs.
Proof.
  apply bool_filter_prop. intros y.
  rewrite negb_true_iff. apply String.eqb_neq.
Qed.

Lemma elem_of_unique x xs : x ∈ unique xs <-> x ∈ xs.
Proof.
  induction xs as [|y xs IH]; simpl; [done|].
  rewrite unique_filter, !elem_of_cons, list_elem_of_filter, IH.
  destruct (decide (x = y)); tauto.
Qed.

Lemma NoDup_unique xs : NoDup (unique xs).
Proof.
  induction xs as [|y xs IH]; simpl; [constructor|].
  rewrite unique_filter. constructor.
  - rewrite list_elem_of_filter. tauto.
  - by apply NoDup_filter.
Qed.

(** *** Counting *)

Lemma occurrences_cons k x xs :
  occurrences k (x :: xs) =
    ((if String.eqb k x then 1 else 0) + occurrences k xs)%nat.
Proof. unfold occurrences. simpl. by destruct (String.eqb k x). Qed.

Lemma occurrences_prop k xs :
  occurrences k xs = length (filter (fun y => y = k) xs).
Proof.
  unfold occurrences. f_equal. apply bool_filter_prop. intros y.
  rewrite String.eqb_eq. split; congruence.
Qed.

(** A key that occurs once in a list of keys is hit once. *)
Lemma sum_hits_absent x (ks : list string) :
  x ∉ ks ->
  sum_list ((fun k => if String.eqb k x then 1%nat else 0%nat) <$> ks) = 0%nat.
Proof.
  induction ks as [|k ks IH]; intros Hk; csimpl; [done|].
  apply not_elem_of_cons in Hk as [Hne Hk].
  destruct (String.eqb_spec k x) as [->|_]; [done|]. by apply IH.
Qed.

Lemma sum_hits_NoDup x (ks : list string) :
  NoDup ks -> x ∈ ks ->
  sum_list ((fun k => if String.eqb k x then 1%nat else 0%nat) <$> ks) = 1%nat.
Proof.
  induction 1 as [|k ks Hk Hnd IH]; intros Hx; [by apply elem_of_nil in Hx|].
  csimpl. destruct (String.eqb_spec k x) as [->|Hne].
  - by rewrite sum_hits_absent.
  - apply elem_of_cons in Hx as [->|Hx]; [done|]. by apply IH.
Qed.

Lemma sum_occurrences_cons x xs (ks : list string) :
  sum_list ((fun k => occurrences k (x :: xs)) <$> ks)
  = (sum_list ((fun k => if String.eqb k x then 1%nat else 0%nat) <$> ks)
     + sum_list ((fun k => occurrences k xs) <$> ks))%nat.
Proof.
  induction ks as [|k ks IH]; csimpl; [done|].
  rewrite occurrences_cons, IH. lia.
Qed.

(** Counts over a duplicate-free list of keys that covers the series
    add up to the length of the series. *)
Lemma sum_occurrences (ks : list string) (xs : Series string) :
  NoDup ks -> (forall x, x ∈ xs -> x ∈ ks) ->
  sum_list ((fun k => occurrences k xs) <$> ks) = length xs.
Proof.
  intros Hnd. induction xs as [|x xs IH]; intros Hcov.
  - clear. induction ks as [|k ks IH]; csimpl; [done|]. by rewrite IH.
  - rewrite sum_occurrences_cons, sum_hits_NoDup, IH; [done| |done|].
    + intros y Hy. apply Hcov. by right.
    + apply Hcov. by left.
Qed.

(** *** [value_counts] *)

Lemma value_counts_perm xs :
  value_counts xs ≡ₚ (fun k => (k, occurrences k xs)) <$> unique xs.
Proof. apply sort_desc_perm. Qed.

Lemma index_value_counts_perm xs : index (value_counts xs) ≡ₚ unique xs.
Proof.
  unfold index. change (map fst (value_counts xs)) with (fst <$> value_counts xs).
  rewrite value_counts_perm, <- list_fmap_compose.
  by rewrite <- (list_fmap_id (unique xs)) at 2.
Qed.

Lemma values_value_counts_perm xs :
  values (value_counts xs) ≡ₚ (fun k => occurrences k xs) <$> unique xs.
Proof.
  unfold values. change (map snd (value_counts xs)) with (snd <$> value_counts xs).
  by rewrite value_counts_perm, <- list_fmap_compose.
Qed.

Lemma NoDup_index_value_counts xs : NoDup (index (value_counts xs)).
Proof. rewrite index_value_counts_perm. apply NoDup_unique. Qed.

Lemma elem_of_index_value_counts x xs : x ∈ index (value_counts xs) <-> x ∈ xs.
Proof. rewrite index_value_counts_perm. apply elem_of_unique. Qed.

Lemma elem_of_value_counts k n xs :
  (k, n) ∈ value_counts xs -> n = occurrences k xs.
Proof.
  rewrite value_counts_perm, list_elem_of_fmap. intros (x & [= -> ->] & _). done.
Qed.

Lemma sum_values_value_counts xs : sum_list (values (value_counts xs)) = length xs.
Proof.
  rewrite values_value_counts_perm. apply sum_occurrences.
  - apply NoDup_unique.
  - intros x. by rewrite elem_of_unique.
Qed.

Lemma insert_desc_sorted (e : string * nat) (l : list (string * nat)) :
  StronglySorted by_count_desc l -> StronglySorted by_count_desc (insert_desc e l).
Proof.
  induction 1 as [|h t Ht IH Hh]; simpl.
  - repeat constructor.
  - destruct (Nat.leb_spec h.2 e.2) as [Hle|Hlt].
    + constructor; [by constructor|].
      constructor; [done|].
      eapply Forall_impl; [exact Hh|]. unfold by_count_desc. intros x Hx. lia.
    + constructor; [done|].
      rewrite insert_desc_perm. constructor; [|done].
      unfold by_count_desc. lia.
Qed.

Lemma sort_desc_sorted (l : list (string * nat)) :
  StronglySorted by_count_desc (sort_desc l).
Proof.
  unfold sort_desc. induction l as [|h t IH]; simpl; [constructor|].
  by apply insert_desc_sorted.
Qed.

(** *** What any admissible result of [value_counts] shares *)






End PandasFacts.

(* ===================================================================== *)
(** ** Facts about binary64 comparison                                    *)
(* ===================================================================== *)

Module FloatFacts.

(** No value lies between the ends of an inverted range: [lo <= p] and
    [p <= hi] rule out [hi < lo].  Both NaN and the signed zeros and
    infinities are covered. *)
Lemma SF_inverted_empty (lo p hi : spec_float) :
  SFleb lo p = true -> SFleb p hi = true -> SFltb hi lo = true -> False.
Proof.
  unfold SFleb, SFltb, SFcompare.
  destruct lo as [[]|[]| |[] mlo elo], p as [[]|[]| |[] mp ep],
           hi as [[]|[]| |[] mh eh];
    try discriminate;
    change (Pos.compare_cont Eq ?a ?b) with (Pos.compare a b);
    repeat match goal with
           | |- context [Z.compare ?a ?b] =>
               destruct (Z.compare_spec a b)
           | |- context [Pos.compare ?a ?b] =>
               destruct (Pos.compare_spec a b)
           end;
    simpl; intros; try discriminate; subst; lia.
Qed.

Lemma inverted_empty (lo p hi : float) :
  PrimFloat.leb lo p = true -> PrimFloat.leb p hi = true ->
  PrimFloat.ltb hi lo = true -> False.
Proof. rewrite !leb_spec, ltb_spec. apply SF_inverted_empty. Qed.

End FloatFacts.

(* ===================================================================== *)
(** ** The callbacks: what they return                                    *)
(* ===================================================================== *)

Module DashboardFacts.
Import Pandas Plotly Dashboard Views PandasFacts.

(** *** The three selections of the script as filters *)

Lemma select_class (df : DataFrame) (c : Z) :
  bool_index df (eq_int (column class df) c) = filter (fun r => class r = c) df.
Proof.
  unfold eq_int, column. rewrite map_map.
  apply bool_index_prop. intros r. apply Z.eqb_eq.
Qed.

Lemma select_site (df : DataFrame) (s : string) :
  bool_index df (eq_str (column Launch_Site df) s)
  = filter (fun r => Launch_Site r = s) df.
Proof.
  unfold eq_str, column. rewrite map_map.
  apply bool_index_prop. intros r. apply String.eqb_eq.
Qed.

Lemma select_range (df : DataFrame) (lo hi : float) :
  bool_index df (mask_and (ge_float (column Payload_Mass df) lo)
                          (le_float (column Payload_Mass df) hi))
  = filter (in_range lo hi) df.
Proof.
  unfold ge_float, le_float, column. rewrite !map_map, mask_and_map.
  apply bool_index_prop. intros r. unfold in_range.
  apply andb_true_iff.
Qed.

(** *** The callbacks in closed form *)

Lemma get_pie_chart_all (g : Globals) :
  get_pie_chart "ALL" g
  = (Ok (Pie (index (value_counts (successes (spacex_df g))))
             (values (value_counts (successes (spacex_df g))))
             "Total Success Launches by Site"), g).
Proof.
  unfold get_pie_chart, bind, load_spacex_df, ret, px_pie. simpl.
  by rewrite select_class.
Qed.

Lemma get_pie_chart_site (g : Globals) (s : string) :
  s <> "ALL" ->
  get_pie_chart s g
  = (Ok (Pie ["Success"; "Failed"]
             [length (filter (fun r => class r = 1 /\ Launch_Site r = s)
                             (spacex_df g));
              length (filter (fun r => class r = 0 /\ Launch_Site r = s)
                             (spacex_df g))]
             ("Success vs Failed Launches for " ++ s)), g).
Proof.
  intros Hs. unfold get_pie_chart.
  destruct (String.eqb_spec s "ALL") as [|_]; [done|].
  unfold bind, load_spacex_df, ret, px_pie_frame. simpl.
  rewrite select_site, !select_class.
  by rewrite !list_filter_filter.
Qed.

Lemma get_scatter_chart_at (g : Globals) (s : string)
      (rng : list float) (lo hi : float) :
  rng !! 0%nat = Some lo -> rng !! 1%nat = Some hi ->
  get_scatter_chart s rng g
  = (Ok (scatter_of (scatter_rows s lo hi (spacex_df g))), g).
Proof.
  intros Hlo Hhi.
  unfold get_scatter_chart, bind, load_spacex_df, getitem, ret, px_scatter.
  rewrite Hlo, Hhi. simpl. unfold scatter_rows, scatter_of.
  rewrite select_range. destruct (negb (String.eqb s "ALL")); [|done].
  by rewrite select_site.
Qed.

Lemma get_scatter_chart_short (g : Globals) (s : string) (rng : list float) :
  (length rng < 2)%nat -> get_scatter_chart s rng g = (Raise IndexError, g).
Proof.
  intros Hlen.
  unfold get_scatter_chart, bind, load_spacex_df, getitem, ret, raise.
  destruct rng as [|lo [|hi rng]]; simpl in *; try done. lia.
Qed.

Lemma get_scatter_chart_cases (g : Globals) (s : string) (rng : list float) :
  (exists lo hi, rng !! 0%nat = Some lo /\ rng !! 1%nat = Some hi /\
     get_scatter_chart s rng g
     = (Ok (scatter_of (scatter_rows s lo hi (spacex_df g))), g))
  \/ get_scatter_chart s rng g = (Raise IndexError, g).
Proof.
  destruct rng as [|lo [|hi rng]].
  - right. apply get_scatter_chart_short. simpl. lia.
  - right. apply get_scatter_chart_short. simpl. lia.
  - left. exists lo, hi. split_and!; try done.
    by apply get_scatter_chart_at.
Qed.

Lemma elem_of_scatter_rows r s lo hi df :
  r ∈ scatter_rows s lo hi df <->
  r ∈ df /\ in_range lo hi r /\ (s <> "ALL" -> Launch_Site r = s).
Proof.
  unfold scatter_rows. destruct (String.eqb_spec s "ALL") as [->|Hs]; simpl.
  - rewrite list_elem_of_filter. tauto.
  - rewrite !list_elem_of_filter. tauto.
Qed.

(** *** The callbacks leave the globals alone *)

Lemma get_pie_chart_frame s g : (get_pie_chart s g).2 = g.
Proof.
  destruct (decide (s = "ALL")) as [->|Hs].
  - by rewrite get_pie_chart_all.
  - by rewrite get_pie_chart_site.
Qed.

Lemma get_scatter_chart_frame s rng g : (get_scatter_chart s rng g).2 = g.
Proof.
  destruct (get_scatter_chart_cases g s rng) as [(lo & hi & _ & _ & ->)| ->]; done.
Qed.

Lemma invoke_frame c g : (invoke c g).2 = g.
Proof.
  destruct c; [apply get_pie_chart_frame|apply get_scatter_chart_frame].
Qed.

Lemma serve_frame cs g : (serve cs g).2 = g.
Proof.
  induction cs as [|c cs IH]; simpl; [done|].
  pose proof (invoke_frame c g) as Hc.
  destruct (invoke c g) as [r g1]. simpl in Hc. subst g1.
  specialize (IH). destruct (serve cs g) as [rs g2]. simpl in *. done.
Qed.

Lemma serve_cons c cs g :
  serve (c :: cs) g = ((invoke c g).1 :: (serve cs g).1, g).
Proof.
  simpl. pose proof (invoke_frame c g) as Hc. pose proof (serve_frame cs g) as Hs.
  destruct (invoke c g) as [r g1]. simpl in *. subst g1.
  destruct (serve cs g) as [rs g2]. simpl in *. by subst g2.
Qed.

Lemma serve_results cs g :
  (serve cs g).1 = (fun c => (invoke c g).1) <$> cs.
Proof.
  induction cs as [|c cs IH]; [done|].
  by rewrite serve_cons, fmap_cons, <- IH.
Qed.

(** *** The points of a scatter figure *)

(** Grouping the rows by trace neither loses nor invents a point. *)
Lemma elem_of_points (pt : float * Z * string) (fig : Figure) :
  pt ∈ points fig <-> exists r, r ∈ plotted fig /\ pt = point_of r.
Proof.
  destruct fig as [names vals title|data x y color title labels].
  { simpl. split; [by intros ?%elem_of_nil|by intros (r & ?%elem_of_nil & _)]. }
  unfold points, traces, plotted. rewrite list_elem_of_In, in_concat. split.
  - intros (tr & Htr & Hpt).
    apply in_map_iff in Htr as ([c pts] & <- & Hc).
    apply in_map_iff in Hc as (c' & [= <- <-] & _). simpl in Hpt.
    apply in_map_iff in Hpt as (r & <- & Hr).
    apply filter_In in Hr as [Hr _]. exists r. by rewrite list_elem_of_In.
  - intros (r & Hr & ->). apply list_elem_of_In in Hr.
    exists (map point_of (trace_rows data (Booster_Version_Category r))). split.
    + apply in_map_iff.
      exists (Booster_Version_Category r,
              map point_of (trace_rows data (Booster_Version_Category r))).
      split; [done|]. apply in_map_iff.
      exists (Booster_Version_Category r). split; [done|].
      apply list_elem_of_In, elem_of_unique, list_elem_of_In.
      unfold column. by apply in_map.
    + apply in_map, filter_In. split; [done|]. apply String.eqb_refl.
Qed.

Lemma points_nil (fig : Figure) : plotted fig = [] -> points fig = [].
Proof.
  intros Hnone. apply elem_of_nil_inv. intros pt Hpt.
  apply elem_of_points in Hpt as (r & Hr & _). rewrite Hnone in Hr.
  by apply elem_of_nil in Hr.
Qed.

End DashboardFacts.

(* ===================================================================== *)
(** ** Properties of the callbacks                                        *)
(* ===================================================================== *)

Module DashboardSpec.
Import Pandas Plotly Dashboard Views MoreTerms.
Import PandasFacts DashboardFacts FloatFacts.

Lemma occurrences_successes (s : string) (df : DataFrame) :
  occurrences s (successes df)
  = length (filter (fun r => Launch_Site r = s /\ class r = 1) df).
Proof.
  unfold successes.
  rewrite occurrences_prop, (filter_fmap_comm Launch_Site (fun y => y = s)).
  rewrite length_fmap.
  by rewrite list_filter_filter.
Qed.

Lemma elem_of_successes (s : string) (df : DataFrame) :
  s ∈ successes df <-> exists r, r ∈ df /\ Launch_Site r = s /\ class r = 1.
Proof.
  unfold successes. rewrite list_elem_of_fmap. split.
  - intros (r & -> & Hr). apply list_elem_of_filter in Hr as [Hc Hr]. eauto.
  - intros (r & Hr & <- & Hc). exists r. split; [done|].
    by apply list_elem_of_filter.
Qed.

(** On a table of binary outcomes, the successes and the failures of a
    site are all of its rows. *)
Lemma outcome_counts_total (s : string) (df : DataFrame) :
  Forall (fun r => class r = 0 \/ class r = 1) df ->
  Nat.add (length (filter (fun r => class r = 1 /\ Launch_Site r = s) df))
          (length (filter (fun r => class r = 0 /\ Launch_Site r = s) df))
  = length (filter (fun r => Launch_Site r = s) df).
Proof.
  induction 1 as [|r df Hr _ IH]; [done|].
  rewrite !filter_cons.
  destruct (decide (Launch_Site r = s)) as [Hsite|Hsite].
  - destruct Hr as [Hr|Hr].
    + rewrite decide_False, decide_True by (rewrite ?Hr; intuition lia).
      simpl. lia.
    + rewrite decide_True, decide_False by (rewrite ?Hr; intuition lia).
      simpl. lia.
  - rewrite !decide_False by tauto. exact IH.
Qed.

(** C1.  With the input 'ALL', [get_pie_chart] returns a pie that has
    exactly one slice for each distinct launch site with at least one
    row of class 1 (the names are duplicate-free, they are exactly those
    sites, so there are as many slices as such sites); the value of a
    slice is the number of class-1 rows of its site; and the values add
    up to the number of class-1 rows of the table. *)
Theorem pie_all_sites_slices (g : Globals) :
  exists names vals title,
    (get_pie_chart "ALL" g).1 = Ok (Pie names vals title) /\
    NoDup names /\
    (forall s, s ∈ names <->
               exists r, r ∈ spacex_df g /\ Launch_Site r = s /\ class r = 1) /\
    length names
      = length (remove_dups
                  (Launch_Site <$> filter (fun r => class r = 1) (spacex_df g))) /\
    length vals = length names /\
    (forall s v, (s, v) ∈ zip names vals ->
                 v = length (filter (fun r => Launch_Site r = s /\ class r = 1)
                                    (spacex_df g))) /\
    sum_list vals = length (filter (fun r => class r = 1) (spacex_df g)).
Proof.
  set (df := spacex_df g). set (vc := value_counts (successes df)).
  exists (index vc), (values vc), "Total Success Launches by Site".
  split; [by rewrite get_pie_chart_all|].
  assert (forall s, s ∈ index vc <->
            exists r, r ∈ df /\ Launch_Site r = s /\ class r = 1) as Hin.
  { intros s. unfold vc.
    by rewrite elem_of_index_value_counts, elem_of_successes. }
  split_and!.
  - apply NoDup_index_value_counts.
  - exact Hin.
  - apply Permutation_length, NoDup_Permutation.
    + apply NoDup_index_value_counts.
    + apply NoDup_remove_dups.
    + intros s. rewrite Hin, elem_of_remove_dups.
      symmetry. apply elem_of_successes.
  - unfold values, index. by rewrite !length_map.
  - intros s v Hsv. unfold index, values in Hsv.
    change (zip (map fst vc) (map snd vc)) with (zip (vc.*1) (vc.*2)) in Hsv.
    rewrite zip_fst_snd in Hsv.
    apply elem_of_value_counts in Hsv as ->. apply occurrences_successes.
  - unfold vc. rewrite sum_values_value_counts. unfold successes.
    apply length_fmap.
Qed.

(** C2.  For any payload range [lo, hi] (in particular for lo <= hi),
    [get_scatter_chart] returns a figure, and every row it plots, hence
    every point it draws, has a payload mass p with lo <= p and p <= hi,
    both ends included. *)
Theorem scatter_within_range (g : Globals) (s : string) (lo hi : float) :
  exists fig,
    (get_scatter_chart s [lo; hi] g).1 = Ok fig /\
    (forall r, r ∈ plotted fig ->
               r ∈ spacex_df g /\
               PrimFloat.leb lo (Payload_Mass r) = true /\
               PrimFloat.leb (Payload_Mass r) hi = true) /\
    (forall p c b, (p, c, b) ∈ points fig ->
                   PrimFloat.leb lo p = true /\ PrimFloat.leb p hi = true).
Proof.
  exists (scatter_of (scatter_rows s lo hi (spacex_df g))).
  split; [by rewrite (get_scatter_chart_at g s [lo; hi] lo hi)|].
  assert (forall r, r ∈ scatter_rows s lo hi (spacex_df g) ->
            r ∈ spacex_df g /\ in_range lo hi r) as Hrows.
  { intros r Hr. apply elem_of_scatter_rows in Hr. tauto. }
  split.
  - intros r Hr. apply Hrows in Hr. unfold in_range in Hr. tauto.
  - intros p c b Hp.
    apply elem_of_points in Hp as (r & Hr & [= -> -> ->]).
    apply Hrows in Hr as [_ Hr]. exact Hr.
Qed.

(** C3.  With a site name other than 'ALL', and every class value of the
    table 0 or 1, [get_pie_chart] returns a pie with exactly the two
    slices 'Success' and 'Failed', whose values add up to the number of
    rows whose launch site is the selected one. *)
Theorem pie_single_site_total (g : Globals) (s : string) :
  s <> "ALL" ->
  Forall (fun r => class r = 0 \/ class r = 1) (spacex_df g) ->
  exists succ fail title,
    (get_pie_chart s g).1 = Ok (Pie ["Success"; "Failed"] [succ; fail] title) /\
    (succ + fail)%nat
      = length (filter (fun r => Launch_Site r = s) (spacex_df g)).
Proof.
  intros Hs Hbin. eexists _, _, _.
  split; [by rewrite get_pie_chart_site|].
  by apply outcome_counts_total.
Qed.

Lemma pie_single_site_total_witness :
  exists succ fail title,
    (get_pie_chart "KSC LC-39A" sample_globals).1
      = Ok (Pie ["Success"; "Failed"] [succ; fail] title) /\
    (succ + fail)%nat
      = length (filter (fun r => Launch_Site r = "KSC LC-39A")
                       (spacex_df sample_globals)).
Proof.
  apply (pie_single_site_total sample_globals "KSC LC-39A").
  - discriminate.
  - cbn. repeat (constructor; [cbn; lia|]). constructor.
Defined.

(** C4.  With a site value other than 'ALL', only rows whose launch
    site equals the selected value reach the figures.  The two slices of
    the pie count rows of that site only, so the pie is the same on any
    table with the same rows of that site; and every row the scatter
    plots is a row of the table whose launch site is the selected
    value, and every point it draws is the point of such a row. *)
Theorem site_selection_restricts (g : Globals) (s : string) :
  s <> "ALL" ->
  (exists succ fail title,
      (get_pie_chart s g).1 = Ok (Pie ["Success"; "Failed"] [succ; fail] title) /\
      succ = length (filter (fun r => class r = 1)
                            (filter (fun r => Launch_Site r = s) (spacex_df g))) /\
      fail = length (filter (fun r => class r = 0)
                            (filter (fun r => Launch_Site r = s) (spacex_df g)))) /\
  (forall g',
      filter (fun r => Launch_Site r = s) (spacex_df g')
      = filter (fun r => Launch_Site r = s) (spacex_df g) ->
      (get_pie_chart s g').1 = (get_pie_chart s g).1) /\
  (forall rng fig,
      (get_scatter_chart s rng g).1 = Ok fig ->
      (forall r, r ∈ plotted fig -> r ∈ spacex_df g /\ Launch_Site r = s) /\
      (forall pt, pt ∈ points fig ->
                  exists r, r ∈ spacex_df g /\ Launch_Site r = s /\
                            pt = point_of r)).
Proof.
  intros Hs. split_and!.
  - eexists _, _, _. rewrite get_pie_chart_site by done.
    by rewrite !list_filter_filter.
  - intros g' Hsame. rewrite !get_pie_chart_site by done. simpl.
    by rewrite <- !list_filter_filter, Hsame.
  - intros rng fig Hfig.
    destruct (get_scatter_chart_cases g s rng)
      as [(lo & hi & _ & _ & Hrun)|Hrun]; rewrite Hrun in Hfig;
      [|discriminate].
    injection Hfig as <-.
    assert (forall r, r ∈ plotted (scatter_of (scatter_rows s lo hi (spacex_df g))) ->
              r ∈ spacex_df g /\ Launch_Site r = s) as Hrows.
    { intros r Hr. simpl in Hr. apply elem_of_scatter_rows in Hr. tauto. }
    split; [exact Hrows|].
    intros pt Hpt. apply elem_of_points in Hpt as (r & Hr & ->).
    apply Hrows in Hr as [Hr Hsite]. by exists r.
Qed.

Lemma site_selection_restricts_witness :
  (exists succ fail title,
      (get_pie_chart "KSC LC-39A" sample_globals).1
        = Ok (Pie ["Success"; "Failed"] [succ; fail] title) /\
      succ = length (filter (fun r => class r = 1)
                       (filter (fun r => Launch_Site r = "KSC LC-39A")
                               (spacex_df sample_globals))) /\
      fail = length (filter (fun r => class r = 0)
                       (filter (fun r => Launch_Site r = "KSC LC-39A")
                               (spacex_df sample_globals)))) /\
  (forall g',
      filter (fun r => Launch_Site r = "KSC LC-39A") (spacex_df g')
      = filter (fun r => Launch_Site r = "KSC LC-39A") (spacex_df sample_globals) ->
      (get_pie_chart "KSC LC-39A" g').1
      = (get_pie_chart "KSC LC-39A" sample_globals).1) /\
  (forall rng fig,
      (get_scatter_chart "KSC LC-39A" rng sample_globals).1 = Ok fig ->
      (forall r, r ∈ plotted fig ->
                 r ∈ spacex_df sample_globals /\ Launch_Site r = "KSC LC-39A") /\
      (forall pt, pt ∈ points fig ->
                  exists r, r ∈ spacex_df sample_globals /\
                            Launch_Site r = "KSC LC-39A" /\ pt = point_of r)).
Proof.
  apply (site_selection_restricts sample_globals "KSC LC-39A"). discriminate.
Defined.

(** C7.  For a payload range [lo, hi] with lo > hi, [get_scatter_chart]
    raises nothing and checks nothing: it returns a figure, built from
    a filter no row passes, so the scatter has no points. *)
Theorem scatter_inverted_range (g : Globals) (s : string) (lo hi : float) :
  PrimFloat.ltb hi lo = true ->
  exists fig,
    get_scatter_chart s [lo; hi] g = (Ok fig, g) /\
    plotted fig = [] /\ points fig = [].
Proof.
  intros Hinv. exists (scatter_of (scatter_rows s lo hi (spacex_df g))).
  split; [by apply get_scatter_chart_at|].
  assert (scatter_rows s lo hi (spacex_df g) = []) as Hnone.
  { apply elem_of_nil_inv. intros r Hr.
    apply elem_of_scatter_rows in Hr as (_ & [Hlo Hhi] & _).
    exact (inverted_empty lo (Payload_Mass r) hi Hlo Hhi Hinv). }
  split; [by simpl|]. by apply points_nil.
Qed.

Lemma scatter_inverted_range_witness :
  exists fig,
    get_scatter_chart "ALL" [6000%float; 2000%float] sample_globals
      = (Ok fig, sample_globals) /\
    plotted fig = [] /\ points fig = [].
Proof.
  apply (scatter_inverted_range sample_globals "ALL" 6000%float 2000%float).
  reflexivity.
Defined.

(** C8.  Neither callback changes the loaded table, whatever its input
    (a range too short to index included): the globals after a call are
    the globals before it, and so the table after any sequence of
    callback invocations is the table as it was loaded. *)
Theorem callbacks_leave_table (g : Globals) :
  (forall s, (get_pie_chart s g).2 = g) /\
  (forall s rng, (get_scatter_chart s rng g).2 = g) /\
  (forall cs, spacex_df (serve cs g).2 = spacex_df g).
Proof.
  split_and!.
  - intros s. apply get_pie_chart_frame.
  - intros s rng. apply get_scatter_chart_frame.
  - intros cs. by rewrite serve_frame.
Qed.


(** On the sample table two sites have one success each: the all-sites
    pie may list them in either order, so an invocation has more than one
    admissible outcome there. *)
Example tied_slices_either_order :
  exists fig1 fig2,
    outcome sample_globals (PieCall "ALL") fig1 /\
    outcome sample_globals (PieCall "ALL") fig2 /\
    slice_names fig1
    = ["KSC LC-39A"; "CCAFS LC-40"; "VAFB SLC-4E"] /\
    slice_names fig2
    = ["KSC LC-39A"; "VAFB SLC-4E"; "CCAFS LC-40"].
Proof.
  exists (px_pie (values [("KSC LC-39A", 2%nat); ("CCAFS LC-40", 1%nat);
                          ("VAFB SLC-4E", 1%nat)])
                 (index [("KSC LC-39A", 2%nat); ("CCAFS LC-40", 1%nat);
                         ("VAFB SLC-4E", 1%nat)])
                 "Total Success Launches by Site"),
         (px_pie (values [("KSC LC-39A", 2%nat); ("VAFB SLC-4E", 1%nat);
                          ("CCAFS LC-40", 1%nat)])
                 (index [("KSC LC-39A", 2%nat); ("VAFB SLC-4E", 1%nat);
                         ("CCAFS LC-40", 1%nat)])
                 "Total Success Launches by Site").
  split_and!; try done.
  - constructor. split.
    + apply Permutation_swap.
    + unfold by_count_desc. repeat (constructor; simpl; try lia).
  - constructor. split.
    + etrans; [|apply Permutation_swap]. apply Permutation_skip, Permutation_swap.
    + unfold by_count_desc. repeat (constructor; simpl; try lia).
Qed.

End DashboardSpec.

(* ===================================================================== *)
(** ** Start-up: facts about the port search                              *)
(* ===================================================================== *)

Module StartupFacts.
Import Startup StartupTerms.

Section Search.
Variable int : string -> option Z.
Variable connect_ex : Z -> Z.

Lemma is_port_available_occupied port :
  occupied connect_ex port ->
  is_port_available connect_ex port = ([ConnectEx port], inl false).
Proof. unfold occupied, is_port_available. by intros ->. Qed.

Lemma is_port_available_free port :
  ~ occupied connect_ex port ->
  is_port_available connect_ex port = ([ConnectEx port], inl true).
Proof.
  unfold occupied, is_port_available. intros Hfree.
  by destruct (Z.eqb_spec (connect_ex port) 0).
Qed.

Lemma try_alt_ports_cons (q : Z) (alts : list Z) :
  try_alt_ports connect_ex (q :: alts)
  = seq (is_port_available connect_ex q)
        (fun free =>
           if free then
             seq (print ("Using port " ++ pretty q ++ " instead."))
                 (fun _ => pure q)
           else try_alt_ports connect_ex alts).
Proof. reflexivity. Qed.

(** The loop stops at the first free port, having asked about every
    port before it, in order. *)
Lemma try_alt_ports_first (busy : list Z) (p : Z) (rest : list Z) :
  Forall (occupied connect_ex) busy -> ~ occupied connect_ex p ->
  try_alt_ports connect_ex (busy ++ p :: rest)%list
  = (((ConnectEx <$> busy) ++
      [ConnectEx p; Print ("Using port " ++ pretty p ++ " instead.")])%list,
     inl p).
Proof.
  intros Hbusy Hfree. induction Hbusy as [|q busy Hq _ IH].
  - rewrite app_nil_l, try_alt_ports_cons, is_port_available_free by done.
    reflexivity.
  - rewrite <- app_comm_cons, try_alt_ports_cons.
    rewrite is_port_available_occupied by done.
    unfold seq at 1. by rewrite IH.
Qed.

(** With every port occupied the loop runs to its [else]. *)
Lemma try_alt_ports_none (alts : list Z) :
  Forall (occupied connect_ex) alts ->
  try_alt_ports connect_ex alts
  = (((ConnectEx <$> alts) ++ (Print <$> no_port_report))%list, inr 1).
Proof.
  induction 1 as [|q alts Hq _ IH]; [done|].
  rewrite try_alt_ports_cons, is_port_available_occupied by done.
  unfold seq at 1. by rewrite IH.
Qed.

(** A list of ports is all occupied, or splits at its first free one. *)
Lemma first_free_split (alts : list Z) :
  Forall (occupied connect_ex) alts \/
  exists busy p rest,
    alts = (busy ++ p :: rest)%list /\
    Forall (occupied connect_ex) busy /\ ~ occupied connect_ex p.
Proof.
  induction alts as [|q alts IH]; [by left|].
  destruct (decide (occupied connect_ex q)) as [Hq|Hq].
  - destruct IH as [IH|(busy & p & rest & -> & Hbusy & Hp)].
    + left. by constructor.
    + right. exists (q :: busy), p, rest. split_and!; try done.
      by constructor.
  - right. by exists [], q, alts.
Qed.

(** *** The four ways through the block *)

Lemma main_parsed (argv : list string) (arg : string) (port : Z) :
  argv !! 1%nat = Some arg -> int arg = Some port ->
  main int connect_ex argv
  = ([Print ("Using specified port: " ++ pretty port)], AppRun port).
Proof.
  intros Harg Hint. destruct argv as [|a0 [|a1 argv]]; simplify_eq/=.
  unfold main, select_port. by rewrite Hint.
Qed.

Lemma main_unparsable (argv : list string) (arg : string) :
  argv !! 1%nat = Some arg -> int arg = None ->
  main int connect_ex argv
  = ([Print (invalid_port_warning arg)], AppRun 8050).
Proof.
  intros Harg Hint. destruct argv as [|a0 [|a1 argv]]; simplify_eq/=.
  unfold main, select_port. by rewrite Hint.
Qed.

Lemma select_port_no_arg (argv : list string) :
  (length argv <= 1)%nat ->
  select_port int connect_ex argv
  = seq (is_port_available connect_ex 8050)
        (fun free =>
           if negb free then
             seq (print "Port 8050 is in use. Trying alternative ports...")
                 (fun _ => try_alt_ports connect_ex alternates)
           else pure 8050).
Proof.
  intros Hlen. destruct argv as [|a0 [|a1 argv]]; simpl in *; try done. lia.
Qed.

Lemma main_default_free (argv : list string) :
  (length argv <= 1)%nat -> ~ occupied connect_ex 8050 ->
  main int connect_ex argv = ([ConnectEx 8050], AppRun 8050).
Proof.
  intros Hlen Hfree. unfold main.
  rewrite select_port_no_arg, is_port_available_free by done. done.
Qed.

Lemma main_alternate (argv : list string) (busy : list Z) (p : Z)
      (rest : list Z) :
  (length argv <= 1)%nat -> occupied connect_ex 8050 ->
  alternates = (busy ++ p :: rest)%list ->
  Forall (occupied connect_ex) busy -> ~ occupied connect_ex p ->
  main int connect_ex argv
  = ((ConnectEx 8050
      :: Print "Port 8050 is in use. Trying alternative ports..."
      :: (ConnectEx <$> busy) ++
         [ConnectEx p; Print ("Using port " ++ pretty p ++ " instead.")])%list,
     AppRun p).
Proof.
  intros Hlen H8050 Hsplit Hbusy Hfree. unfold main.
  rewrite select_port_no_arg, is_port_available_occupied by done.
  unfold seq at 1. simpl negb. cbv iota.
  rewrite Hsplit, try_alt_ports_first by done. reflexivity.
Qed.

Lemma main_none_free (argv : list string) :
  (length argv <= 1)%nat -> Forall (occupied connect_ex) candidates ->
  main int connect_ex argv
  = ((ConnectEx 8050
      :: Print "Port 8050 is in use. Trying alternative ports..."
      :: (ConnectEx <$> alternates) ++ (Print <$> no_port_report))%list,
     SysExit 1).
Proof.
  intros Hlen Hall. unfold main.
  apply Forall_cons in Hall as [H8050 Halts].
  rewrite select_port_no_arg, is_port_available_occupied by done.
  unfold seq at 1. simpl negb. cbv iota.
  rewrite try_alt_ports_none by done. reflexivity.
Qed.

End Search.

End StartupFacts.

(* ===================================================================== *)
(** ** Properties of the port selection                                   *)
(* ===================================================================== *)

Module StartupSpec.
Import Startup StartupTerms StartupFacts.

(** C5.  Run without a command-line argument: with 8050 occupied and
    8051 free the server is started on 8051; with 8050 to 8055 all
    occupied the block prints its report and exits with status 1; and
    in between, the alternates 8051..8055 are asked about in ascending
    order and the first free one is taken. *)
Theorem port_fallback (int : string -> option Z) (connect_ex : Z -> Z)
        (argv : list string) :
  (length argv <= 1)%nat ->
  (occupied connect_ex 8050 -> ~ occupied connect_ex 8051 ->
   (main int connect_ex argv).2 = AppRun 8051) /\
  (Forall (occupied connect_ex) [8050; 8051; 8052; 8053; 8054; 8055] ->
   (main int connect_ex argv).2 = SysExit 1 /\
   probes (main int connect_ex argv).1 = [8050; 8051; 8052; 8053; 8054; 8055] /\
   printed (main int connect_ex argv).1
   = [ "Port 8050 is in use. Trying alternative ports...";
       "No available ports found in range 8050-8055.";
       "Please specify a different port: python3.11 spacex-dash-app.py <port_number>" ]) /\
  (forall busy p rest,
      occupied connect_ex 8050 ->
      [8051; 8052; 8053; 8054; 8055] = (busy ++ p :: rest)%list ->
      Forall (occupied connect_ex) busy -> ~ occupied connect_ex p ->
      (main int connect_ex argv).2 = AppRun p /\
      probes (main int connect_ex argv).1 = (8050 :: busy ++ [p])%list).
Proof.
  intros Hlen. split_and!.
  - intros H8050 H8051.
    by rewrite (main_alternate int connect_ex argv [] 8051 [8052; 8053; 8054; 8055]).
  - intros Hall. by rewrite main_none_free.
  - intros busy p rest H8050 Hsplit Hbusy Hfree.
    rewrite (main_alternate int connect_ex argv busy p rest) by done.
    split; [done|]. simpl. f_equal. unfold probes.
    rewrite omap_app. simpl. f_equal.
    clear. induction busy as [|q busy IH]; [done|]. csimpl. by rewrite IH.
Qed.

Lemma port_fallback_witness :
  (main int_ascii three_taken ["spacex-dash-app.py"]).2 = AppRun 8053 /\
  probes (main int_ascii three_taken ["spacex-dash-app.py"]).1
  = [8050; 8051; 8052; 8053].
Proof.
  destruct (port_fallback int_ascii three_taken ["spacex-dash-app.py"])
    as (_ & _ & Hfirst); [simpl; lia|].
  apply (Hfirst [8051; 8052] 8053 [8054; 8055]).
  - reflexivity.
  - reflexivity.
  - repeat constructor.
  - discriminate.
Defined.

(** C6.  An argument that does not parse as an integer makes the block
    print its warning and go on with port 8050: the run ends in
    [app.run], not in an exit.  The block exits only when it was given
    no argument and none of 8050..8055 is free, and then with status 1.
    Apart from these two cases the run ends in [app.run] and prints
    none of the failure lines. *)
Theorem handled_failures (int : string -> option Z) (connect_ex : Z -> Z)
        (argv : list string) :
  (forall arg, argv !! 1%nat = Some arg -> int arg = None ->
     main int connect_ex argv
     = ([Print ("Invalid port number: " ++ arg ++ ". Using default port 8050.")],
        AppRun 8050)) /\
  (forall code, (main int connect_ex argv).2 = SysExit code ->
     code = 1 /\ (length argv <= 1)%nat /\
     Forall (occupied connect_ex) [8050; 8051; 8052; 8053; 8054; 8055]) /\
  ((forall arg, argv !! 1%nat = Some arg -> int arg <> None) ->
   ~ ((length argv <= 1)%nat /\
      Forall (occupied connect_ex) [8050; 8051; 8052; 8053; 8054; 8055]) ->
   (exists port, (main int connect_ex argv).2 = AppRun port) /\
   (forall line, line ∈ printed (main int connect_ex argv).1 ->
                 ~ failure_line line)).
Proof.
  assert (forall p : Z, forall line,
            line ∈ ["Port 8050 is in use. Trying alternative ports...";
                    "Using port " ++ pretty p ++ " instead."] ->
            ~ failure_line line) as Hinfo.
  { intros p line Hline [[arg ->]|Hrep].
    - unfold invalid_port_warning in Hline.
      repeat (apply elem_of_cons in Hline as [Hline|Hline]; [discriminate|]).
      by apply elem_of_nil in Hline.
    - unfold no_port_report in Hrep.
      repeat (apply elem_of_cons in Hrep as [->|Hrep];
              [repeat (apply elem_of_cons in Hline as [Hline|Hline];
                       [discriminate|]); by apply elem_of_nil in Hline|]).
      by apply elem_of_nil in Hrep. }
  split_and!.
  - intros arg Harg Hint. by apply main_unparsable.
  - intros code Hexit.
    destruct (argv !! 1%nat) as [arg|] eqn:Harg.
    { destruct (int arg) as [port|] eqn:Hint.
      - by rewrite (main_parsed int connect_ex argv arg port) in Hexit.
      - by rewrite (main_unparsable int connect_ex argv arg) in Hexit. }
    apply lookup_ge_None in Harg.
    destruct (decide (occupied connect_ex 8050)) as [H8050|H8050];
      [|by rewrite main_default_free in Hexit by (done || lia)].
    destruct (first_free_split connect_ex alternates)
      as [Hall|(busy & p & rest & Hsplit & Hbusy & Hfree)].
    + assert (Forall (occupied connect_ex) candidates) as Hcand
          by by constructor.
      rewrite main_none_free in Hexit by (done || lia).
      injection Hexit as <-. split_and!; [done|lia|exact Hcand].
    + by rewrite (main_alternate int connect_ex argv busy p rest)
        in Hexit by (done || lia).
  - intros Hparse Hfree.
    destruct (argv !! 1%nat) as [arg|] eqn:Harg.
    { destruct (int arg) as [port|] eqn:Hint; [|by destruct (Hparse arg)].
      rewrite (main_parsed int connect_ex argv arg port) by done.
      split; [by eexists|]. intros line Hline. simpl in Hline.
      apply list_elem_of_singleton in Hline as ->.
      intros [[arg' Heq]|Hrep].
      - discriminate.
      - unfold no_port_report in Hrep.
        repeat (apply elem_of_cons in Hrep as [Hrep|Hrep]; [discriminate|]).
        by apply elem_of_nil in Hrep. }
    apply lookup_ge_None in Harg.
    destruct (decide (occupied connect_ex 8050)) as [H8050|H8050].
    2:{ rewrite main_default_free by (done || lia).
        split; [by eexists|]. intros line Hline. by apply elem_of_nil in Hline. }
    destruct (first_free_split connect_ex alternates)
      as [Hall|(busy & p & rest & Hsplit & Hbusy & Hp)].
    + destruct Hfree. split; [lia|]. by constructor.
    + rewrite (main_alternate int connect_ex argv busy p rest) by (done || lia).
      split; [by eexists|]. intros line Hline. apply (Hinfo p).
      simpl in Hline. unfold printed in Hline. simpl in Hline.
      apply elem_of_cons in Hline as [->|Hline]; [by left|].
      rewrite omap_app in Hline. apply elem_of_app in Hline as [Hline|Hline].
      * apply list_elem_of_omap in Hline as (e & He & Hsome).
        apply list_elem_of_fmap in He as (q & -> & _). discriminate.
      * simpl in Hline. apply list_elem_of_singleton in Hline as ->.
        right. by left.
Qed.

Lemma handled_failures_witness :
  main int_ascii all_taken ["spacex-dash-app.py"; "eighty"]
  = ([Print "Invalid port number: eighty. Using default port 8050."],
     AppRun 8050).
Proof.
  destruct (handled_failures int_ascii all_taken
              ["spacex-dash-app.py"; "eighty"]) as (Hwarn & _ & _).
  apply (Hwarn "eighty"); reflexivity.
Defined.

(** C9.  An argument that parses is used as the port as it is: nothing
    is asked about any port, whatever the ports' state, and the run
    ends in [app.run] on that port; an argument that does not parse
    gives 8050 the same way.  So a run that asks about a port had no
    argument, and the port of an argument is used even when it is
    occupied. *)
Theorem explicit_port_unprobed (int : string -> option Z)
        (connect_ex : Z -> Z) (argv : list string) :
  (1 < length argv)%nat ->
  exists arg,
    argv !! 1%nat = Some arg /\
    (main int connect_ex argv).2 = AppRun (default 8050 (int arg)) /\
    probes (main int connect_ex argv).1 = [] /\
    (forall connect_ex',
        main int connect_ex' argv = main int connect_ex argv) /\
    (forall port, int arg = Some port -> occupied connect_ex port ->
                  (main int connect_ex argv).2 = AppRun port).
Proof.
  intros Hlen. destruct (argv !! 1%nat) as [arg|] eqn:Harg.
  2:{ apply lookup_ge_None in Harg. lia. }
  exists arg. split; [done|].
  destruct (int arg) as [port|] eqn:Hint.
  - rewrite (main_parsed int connect_ex argv arg port) by done.
    split_and!; try done.
    + intros ce. by rewrite (main_parsed int ce argv arg port).
    + by intros ? [= ->] _.
  - rewrite (main_unparsable int connect_ex argv arg) by done.
    split_and!; try done.
    intros ce. by rewrite (main_unparsable int ce argv arg).
Qed.

Lemma explicit_port_unprobed_witness :
  exists arg,
    ["spacex-dash-app.py"; "8050"] !! 1%nat = Some arg /\
    (main int_ascii all_taken ["spacex-dash-app.py"; "8050"]).2
     = AppRun (default 8050 (int_ascii arg)) /\
    probes (main int_ascii all_taken ["spacex-dash-app.py"; "8050"]).1 = [] /\
    (forall connect_ex',
        main int_ascii connect_ex' ["spacex-dash-app.py"; "8050"]
        = main int_ascii all_taken ["spacex-dash-app.py"; "8050"]) /\
    (forall port, int_ascii arg = Some port -> occupied all_taken port ->
                  (main int_ascii all_taken ["spacex-dash-app.py"; "8050"]).2
                  = AppRun port).
Proof.
  apply (explicit_port_unprobed int_ascii all_taken
           ["spacex-dash-app.py"; "8050"]).
  simpl. lia.
Defined.

End StartupSpec.

(* ===================================================================== *)
(** ** More on binary64 comparison: an order on the values present        *)
(* ===================================================================== *)

Module FloatOrder.
Import Layout.

(** Case analysis on the comparison of the specification floats. *)
Ltac sf_cases :=
  unfold SFleb, SFeqb, SFltb, SFcompare;
  repeat match goal with
         | x : spec_float |- _ => destruct x as [[]|[]| |[] ? ?]
         end;
  try discriminate; try reflexivity;
  change (Pos.compare_cont Eq ?a ?b) with (Pos.compare a b);
  repeat match goal with
         | |- context [Z.compare ?a ?b] => destruct (Z.compare_spec a b)
         | |- context [Pos.compare ?a ?b] => destruct (Pos.compare_spec a b)
         end;
  simpl; intros; try discriminate; try reflexivity; subst; lia.

Lemma SFleb_trans (a b c : spec_float) :
  SFleb a b = true -> SFleb b c = true -> SFleb a c = true.
Proof. sf_cases. Qed.

Lemma SFleb_total (a b : spec_float) :
  SFeqb a a = true -> SFeqb b b = true -> SFleb a b = false -> SFleb b a = true.
Proof. sf_cases. Qed.

Lemma SFleb_refl (a : spec_float) : SFeqb a a = true -> SFleb a a = true.
Proof. sf_cases. Qed.

Lemma SFleb_present (a b : spec_float) :
  SFleb a b = true -> SFeqb a a = true /\ SFeqb b b = true.
Proof. intros H. split; revert H; sf_cases. Qed.

Lemma leb_trans (a b c : float) :
  PrimFloat.leb a b = true -> PrimFloat.leb b c = true ->
  PrimFloat.leb a c = true.
Proof. rewrite !FloatAxioms.leb_spec. apply SFleb_trans. Qed.

Lemma leb_total (a b : float) :
  isna a = false -> isna b = false ->
  PrimFloat.leb a b = false -> PrimFloat.leb b a = true.
Proof.
  unfold isna. intros Ha%negb_false_iff Hb%negb_false_iff.
  rewrite FloatAxioms.eqb_spec in Ha, Hb. rewrite !FloatAxioms.leb_spec. by apply SFleb_total.
Qed.

Lemma leb_refl (a : float) : isna a = false -> PrimFloat.leb a a = true.
Proof.
  unfold isna. intros Ha%negb_false_iff.
  rewrite FloatAxioms.eqb_spec in Ha. rewrite FloatAxioms.leb_spec. by apply SFleb_refl.
Qed.

(** Only values that are present compare. *)
Lemma leb_present (a b : float) :
  PrimFloat.leb a b = true -> isna a = false /\ isna b = false.
Proof.
  unfold isna. rewrite FloatAxioms.leb_spec. intros [Ha Hb]%SFleb_present.
  by rewrite !FloatAxioms.eqb_spec, Ha, Hb.
Qed.

End FloatOrder.

(* ===================================================================== *)
(** ** Facts about the module-level code and about sorted counts          *)
(* ===================================================================== *)

Module LayoutFacts.
Import Pandas Layout MoreTerms PandasFacts FloatOrder.

(** Filters that agree on the members of a list give the same list. *)
Lemma filter_iff_elem {A} (P Q : A -> Prop) `{!forall x, Decision (P x)}
      `{!forall x, Decision (Q x)} (l : list A) :
  (forall x, x ∈ l -> P x <-> Q x) -> filter P l = filter Q l.
Proof.
  induction l as [|x l IH]; intros Hagree; [done|].
  rewrite !filter_cons, IH by (intros y Hy; apply Hagree; by right).
  destruct (decide (P x)) as [HP|HP], (decide (Q x)) as [HQ|HQ]; try done.
  - destruct HQ. apply Hagree; [by left|done].
  - destruct HP. apply Hagree; [by left|done].
Qed.

(** A filter by a stronger property keeps a sublist. *)
Lemma filter_sublist_impl {A} (P Q : A -> Prop) `{!forall x, Decision (P x)}
      `{!forall x, Decision (Q x)} (l : list A) :
  (forall x, P x -> Q x) -> filter P l `sublist_of` filter Q l.
Proof.
  intros Himpl. rewrite <- (list_filter_filter_l P Q l) by done.
  apply sublist_filter.
Qed.

(** *** The values present *)

Lemma elem_of_dropna (v : float) (s : Series float) :
  v ∈ dropna s <-> v ∈ s /\ isna v = false.
Proof.
  unfold dropna.
  rewrite (bool_filter_prop _ (fun v => isna v = false)).
  - rewrite list_elem_of_filter. tauto.
  - intros x. apply negb_true_iff.
Qed.

(** The running maximum stays present, never falls, and dominates what
    it has seen. *)
Lemma foldl_max_bounds (vs : list float) (m : float) :
  isna m = false -> Forall (fun v => isna v = false) vs ->
  PrimFloat.leb m (foldl (fun m x => if PrimFloat.leb m x then x else m) m vs)
    = true /\
  Forall (fun v =>
            PrimFloat.leb v
              (foldl (fun m x => if PrimFloat.leb m x then x else m) m vs)
            = true) vs.
Proof.
  intros Hm Hvs. revert m Hm.
  induction Hvs as [|x vs Hx _ IH]; intros m Hm; simpl.
  - split; [by apply leb_refl|constructor].
  - destruct (PrimFloat.leb m x) eqn:Hmx.
    + destruct (IH x Hx) as [Hup Hall]. split_and!; try done.
      * by apply (leb_trans m x).
      * by constructor.
    + destruct (IH m Hm) as [Hup Hall]. split; [done|].
      constructor; [|done].
      apply (leb_trans x m); [|done]. by apply leb_total.
Qed.

Lemma foldl_min_bounds (vs : list float) (m : float) :
  isna m = false -> Forall (fun v => isna v = false) vs ->
  PrimFloat.leb (foldl (fun m x => if PrimFloat.leb x m then x else m) m vs) m
    = true /\
  Forall (fun v =>
            PrimFloat.leb
              (foldl (fun m x => if PrimFloat.leb x m then x else m) m vs) v
            = true) vs.
Proof.
  intros Hm Hvs. revert m Hm.
  induction Hvs as [|x vs Hx _ IH]; intros m Hm; simpl.
  - split; [by apply leb_refl|constructor].
  - destruct (PrimFloat.leb x m) eqn:Hxm.
    + destruct (IH x Hx) as [Hlow Hall]. split_and!; try done.
      * by apply (leb_trans _ x).
      * by constructor.
    + destruct (IH m Hm) as [Hlow Hall]. split; [done|].
      constructor; [|done].
      apply (leb_trans _ m); [done|]. by apply leb_total.
Qed.

Lemma dropna_present (s : Series float) :
  Forall (fun v => isna v = false) (dropna s).
Proof.
  apply Forall_forall. intros v Hv. apply elem_of_dropna in Hv. tauto.
Qed.

(** [series.max()] is at least every value present, [series.min()] at
    most. *)
Lemma series_max_upper (s : Series float) (v : float) :
  v ∈ s -> isna v = false -> PrimFloat.leb v (series_max s) = true.
Proof.
  intros Hv Hpres. assert (v ∈ dropna s) as Hin by by apply elem_of_dropna.
  unfold series_max. pose proof (dropna_present s) as Hall.
  destruct (dropna s) as [|m vs]; [by apply elem_of_nil in Hin|].
  apply Forall_cons in Hall as [Hm Hvs].
  destruct (foldl_max_bounds vs m Hm Hvs) as [Hup Hrest].
  apply elem_of_cons in Hin as [->|Hin]; [done|].
  by apply (proj1 (Forall_forall _ _) Hrest).
Qed.

Lemma series_min_lower (s : Series float) (v : float) :
  v ∈ s -> isna v = false -> PrimFloat.leb (series_min s) v = true.
Proof.
  intros Hv Hpres. assert (v ∈ dropna s) as Hin by by apply elem_of_dropna.
  unfold series_min. pose proof (dropna_present s) as Hall.
  destruct (dropna s) as [|m vs]; [by apply elem_of_nil in Hin|].
  apply Forall_cons in Hall as [Hm Hvs].
  destruct (foldl_min_bounds vs m Hm Hvs) as [Hlow Hrest].
  apply elem_of_cons in Hin as [->|Hin]; [done|].
  by apply (proj1 (Forall_forall _ _) Hrest).
Qed.

(** *** [unique] keeps the order of the series *)

Lemma unique_sublist (xs : Series string) : unique xs `sublist_of` xs.
Proof.
  induction xs as [|x xs IH]; simpl; [done|].
  rewrite unique_filter. apply sublist_skip.
  etrans; [apply sublist_filter|done].
Qed.

(** *** Counts come out largest first and are never zero *)

Lemma values_value_counts_sorted (xs : Series string) :
  StronglySorted (fun v w => (w <= v)%nat) (values (value_counts xs)).
Proof.
  unfold values. change (map snd ?l) with (snd <$> l).
  apply StronglySorted_fmap with (R1 := by_count_desc); [done|].
  apply sort_desc_sorted.
Qed.

Lemma occurrences_pos (k : string) (xs : Series string) :
  k ∈ xs -> (1 <= occurrences k xs)%nat.
Proof.
  intros Hk. rewrite occurrences_prop.
  assert (k ∈ filter (fun y => y = k) xs) as Hin by by apply list_elem_of_filter.
  destruct (filter (fun y => y = k) xs); [by apply elem_of_nil in Hin|].
  simpl. lia.
Qed.

Lemma values_value_counts_pos (xs : Series string) :
  Forall (fun v => (1 <= v)%nat) (values (value_counts xs)).
Proof.
  rewrite values_value_counts_perm. apply Forall_fmap, Forall_forall.
  intros k Hk. simpl. apply occurrences_pos. by apply elem_of_unique.
Qed.

End LayoutFacts.

(* ===================================================================== *)
(** ** Further properties of the callbacks and of the layout code         *)
(* ===================================================================== *)

Module DashboardMore.
Import Pandas Plotly Dashboard Layout Views MoreTerms.
Import PandasFacts FloatFacts FloatOrder DashboardFacts LayoutFacts.

(** The condition a row meets to be plotted. *)
Lemma scatter_rows_filter (s : string) (lo hi : float) (df : DataFrame) :
  scatter_rows s lo hi df
  = filter (fun r => in_range lo hi r /\ (s <> "ALL" -> Launch_Site r = s)) df.
Proof.
  unfold scatter_rows. destruct (String.eqb_spec s "ALL") as [->|Hs]; simpl.
  - apply list_filter_iff. intros r. tauto.
  - rewrite list_filter_filter. apply list_filter_iff. intros r. tauto.
Qed.

Lemma get_scatter_chart_pair (g : Globals) (s : string) (lo hi : float)
      (rest : list float) :
  get_scatter_chart s (lo :: hi :: rest) g
  = (Ok (scatter_of (scatter_rows s lo hi (spacex_df g))), g).
Proof. by apply get_scatter_chart_at. Qed.

(** X1.  The scatter shows exactly the rows of the table whose payload is in
    the range and, for a site other than 'ALL', whose site is the
    selected one: each such row once, in table order.  Entries of the
    range after the second are not looked at. *)
Theorem scatter_exact_rows (g : Globals) (s : string) (lo hi : float)
        (rest : list float) :
  exists fig,
    (get_scatter_chart s (lo :: hi :: rest) g).1 = Ok fig /\
    plotted fig
    = filter (fun r => in_range lo hi r /\ (s <> "ALL" -> Launch_Site r = s))
             (spacex_df g) /\
    plotted fig `sublist_of` spacex_df g.
Proof.
  eexists. rewrite get_scatter_chart_pair. split; [done|]. simpl.
  rewrite scatter_rows_filter. split; [done|]. apply sublist_filter.
Qed.

(** X2.  The scatter callback raises [IndexError] exactly when the range has
    fewer than two entries; it raises nothing else. *)
Theorem scatter_index_error (g : Globals) (s : string) (rng : list float) :
  ((get_scatter_chart s rng g).1 = Raise IndexError <-> (length rng < 2)%nat) /\
  ((exists fig, (get_scatter_chart s rng g).1 = Ok fig) <-> (2 <= length rng)%nat).
Proof.
  destruct rng as [|lo [|hi rest]].
  - rewrite get_scatter_chart_short by (simpl; lia). simpl.
    split; split; try done; try lia. by intros [fig Hfig].
  - rewrite get_scatter_chart_short by (simpl; lia). simpl.
    split; split; try done; try lia. by intros [fig Hfig].
  - rewrite get_scatter_chart_pair. simpl.
    split; split; try done; try lia. by eexists.
Qed.

(** X3.  Widening the range never removes a point: the rows plotted for
    [lo, hi] are, in order, among those plotted for a range that starts
    no later and ends no earlier. *)
Theorem scatter_widen (g : Globals) (s : string) (lo hi lo' hi' : float) :
  PrimFloat.leb lo' lo = true -> PrimFloat.leb hi hi' = true ->
  exists fig fig',
    (get_scatter_chart s [lo; hi] g).1 = Ok fig /\
    (get_scatter_chart s [lo'; hi'] g).1 = Ok fig' /\
    plotted fig `sublist_of` plotted fig'.
Proof.
  intros Hlo Hhi. eexists _, _. rewrite !get_scatter_chart_pair.
  split_and!; try done. simpl. rewrite !scatter_rows_filter.
  apply filter_sublist_impl. intros r [[Hl Hh] Hsite].
  split; [|done]. split.
  - by apply (leb_trans lo' lo).
  - by apply (leb_trans _ hi).
Qed.

Lemma scatter_widen_witness :
  exists fig fig',
    (get_scatter_chart "ALL" [2000%float; 6000%float] sample_globals).1 = Ok fig /\
    (get_scatter_chart "ALL" [0%float; 10000%float] sample_globals).1 = Ok fig' /\
    plotted fig `sublist_of` plotted fig'.
Proof.
  apply (scatter_widen sample_globals "ALL"
           2000%float 6000%float 0%float 10000%float); reflexivity.
Defined.

(** X4.  The scatter of one site is the scatter of all sites, cut down to the
    rows of that site. *)
Theorem scatter_site_of_all (g : Globals) (s : string) (lo hi : float) :
  s <> "ALL" ->
  exists fig fig_all,
    (get_scatter_chart s [lo; hi] g).1 = Ok fig /\
    (get_scatter_chart "ALL" [lo; hi] g).1 = Ok fig_all /\
    plotted fig = filter (fun r => Launch_Site r = s) (plotted fig_all).
Proof.
  intros Hs. eexists _, _. rewrite !get_scatter_chart_pair.
  split_and!; try done. simpl. unfold scatter_rows.
  by destruct (String.eqb_spec s "ALL").
Qed.

Lemma scatter_site_of_all_witness :
  exists fig fig_all,
    (get_scatter_chart "KSC LC-39A" [0%float; 6000%float] sample_globals).1
      = Ok fig /\
    (get_scatter_chart "ALL" [0%float; 6000%float] sample_globals).1
      = Ok fig_all /\
    plotted fig = filter (fun r => Launch_Site r = "KSC LC-39A") (plotted fig_all).
Proof.
  apply (scatter_site_of_all sample_globals "KSC LC-39A" 0%float 6000%float).
  discriminate.
Defined.

(** X5.  With the slider as the layout sets it, at [min_payload, max_payload],
    the scatter shows every row whose payload mass is present (and whose
    site is the selected one, for a site other than 'ALL'), and only
    those. *)
Theorem scatter_default_range (df : DataFrame) (s : string) :
  exists fig,
    (get_scatter_chart s (slider_value df) (mkGlobals df)).1 = Ok fig /\
    plotted fig
    = filter (fun r => isna (Payload_Mass r) = false /\
                       (s <> "ALL" -> Launch_Site r = s)) df.
Proof.
  eexists. unfold slider_value. rewrite get_scatter_chart_pair.
  split; [done|]. simpl. rewrite scatter_rows_filter.
  apply filter_iff_elem. intros r Hr.
  assert (in_range (min_payload df) (max_payload df) r
          <-> isna (Payload_Mass r) = false) as Hiff; [|tauto].
  unfold in_range, min_payload, max_payload, column. split.
  - intros [Hlo _]. by apply leb_present in Hlo as [_ Hp].
  - intros Hp.
    assert (Payload_Mass r ∈ map Payload_Mass df) as Hin
        by by apply (list_elem_of_fmap_2 Payload_Mass).
    split; [by apply series_min_lower|by apply series_max_upper].
Qed.

(** X6.  A row whose payload mass is NaN is never plotted, and a range with a
    NaN end plots nothing. *)
Theorem scatter_nan (g : Globals) (s : string) (lo hi : float) :
  exists fig,
    (get_scatter_chart s [lo; hi] g).1 = Ok fig /\
    (forall r, r ∈ plotted fig -> isna (Payload_Mass r) = false) /\
    (isna lo = true \/ isna hi = true -> plotted fig = []).
Proof.
  eexists. rewrite get_scatter_chart_pair. split; [done|]. simpl.
  assert (forall r, r ∈ scatter_rows s lo hi (spacex_df g) ->
            isna lo = false /\ isna (Payload_Mass r) = false /\ isna hi = false)
    as Hpres.
  { intros r Hr. apply elem_of_scatter_rows in Hr as (_ & [Hl Hh] & _).
    apply leb_present in Hl as [? ?]. apply leb_present in Hh as [? ?]. done. }
  split.
  - intros r Hr. apply Hpres in Hr. tauto.
  - intros Hnan. apply elem_of_nil_inv. intros r Hr.
    apply Hpres in Hr as (Hl & _ & Hh). destruct Hnan; congruence.
Qed.

(** X7.  A site value that is neither 'ALL' nor the site of any row gives a
    pie with the two slices at 0; nothing is raised. *)
Theorem pie_unknown_site (g : Globals) (s : string) :
  s <> "ALL" -> (forall r, r ∈ spacex_df g -> Launch_Site r <> s) ->
  get_pie_chart s g
  = (Ok (Pie ["Success"; "Failed"] [0%nat; 0%nat]
             ("Success vs Failed Launches for " ++ s)), g).
Proof.
  intros Hs Hnone. rewrite get_pie_chart_site by done.
  assert (forall c, filter (fun r => class r = c /\ Launch_Site r = s)
                           (spacex_df g) = []) as Hempty.
  { intros c. apply elem_of_nil_inv. intros r Hr.
    apply list_elem_of_filter in Hr as [[_ Hsite] Hr]. by apply (Hnone r). }
  by rewrite !Hempty.
Qed.

Lemma pie_unknown_site_witness :
  get_pie_chart "Boca Chica" sample_globals
  = (Ok (Pie ["Success"; "Failed"] [0%nat; 0%nat]
             ("Success vs Failed Launches for " ++ "Boca Chica")), sample_globals).
Proof.
  apply (pie_unknown_site sample_globals "Boca Chica"); [discriminate|].
  intros r Hr. simpl in Hr.
  repeat (apply elem_of_cons in Hr as [->|Hr]; [discriminate|]).
  by apply elem_of_nil in Hr.
Defined.

(** X8.  For a site other than 'ALL', whatever the class values are: the two
    slices and the rows of the site whose class is neither 0 nor 1 add up
    to the rows of the site; such rows are counted in neither slice. *)
Theorem pie_single_site_accounting (g : Globals) (s : string) :
  s <> "ALL" ->
  exists succ fail title,
    (get_pie_chart s g).1 = Ok (Pie ["Success"; "Failed"] [succ; fail] title) /\
    Nat.add (Nat.add succ fail)
            (length (filter (fun r => Launch_Site r = s /\
                                      class r <> 0 /\ class r <> 1)
                            (spacex_df g)))
    = length (filter (fun r => Launch_Site r = s) (spacex_df g)).
Proof.
  intros Hs. eexists _, _, _. rewrite get_pie_chart_site by done.
  split; [done|]. induction (spacex_df g) as [|r df IH]; [done|].
  rewrite !filter_cons.
  destruct (decide (Launch_Site r = s)) as [Hsite|Hsite].
  - destruct (decide (class r = 1)) as [H1|H1];
      [|destruct (decide (class r = 0)) as [H0|H0]].
    + rewrite decide_True, decide_False, decide_False by (rewrite ?H1; intuition lia).
      simpl. lia.
    + rewrite decide_False, decide_True, decide_False by (rewrite ?H0; intuition lia).
      simpl. lia.
    + rewrite decide_False, decide_False, decide_True by tauto.
      simpl. lia.
  - rewrite !decide_False by tauto. exact IH.
Qed.

Lemma pie_single_site_accounting_witness :
  exists succ fail title,
    (get_pie_chart "CCAFS LC-40" ragged_globals).1
      = Ok (Pie ["Success"; "Failed"] [succ; fail] title) /\
    Nat.add (Nat.add succ fail)
            (length (filter (fun r => Launch_Site r = "CCAFS LC-40" /\
                                      class r <> 0 /\ class r <> 1)
                            (spacex_df ragged_globals)))
    = length (filter (fun r => Launch_Site r = "CCAFS LC-40")
                     (spacex_df ragged_globals)).
Proof.
  apply (pie_single_site_accounting ragged_globals "CCAFS LC-40"). discriminate.
Defined.

(** X9.  In the all-sites pie the slices come largest first, and no slice is
    empty: the values are non-increasing and each is at least 1. *)
Theorem pie_all_sites_order (g : Globals) :
  exists names vals title,
    (get_pie_chart "ALL" g).1 = Ok (Pie names vals title) /\
    StronglySorted (fun v w => (w <= v)%nat) vals /\
    Forall (fun v => (1 <= v)%nat) vals.
Proof.
  eexists _, _, _. rewrite get_pie_chart_all. split; [done|]. split.
  - apply values_value_counts_sorted.
  - apply values_value_counts_pos.
Qed.

(** X10.  The all-sites pie has no slice at all exactly when no row of the
    table has class 1 (an empty table included). *)
Theorem pie_all_sites_empty (g : Globals) :
  exists names vals title,
    (get_pie_chart "ALL" g).1 = Ok (Pie names vals title) /\
    (names = [] /\ vals = [] <-> forall r, r ∈ spacex_df g -> class r <> 1).
Proof.
  eexists _, _, _. rewrite get_pie_chart_all. split; [done|].
  set (vc := value_counts (successes (spacex_df g))).
  assert (forall s, s ∈ index vc <-> s ∈ successes (spacex_df g)) as Hin
      by (intros s; apply elem_of_index_value_counts).
  split.
  - intros [Hnames _] r Hr Hc.
    assert (Launch_Site r ∈ index vc) as Habs.
    { apply Hin. unfold successes. apply list_elem_of_fmap_2.
      by apply list_elem_of_filter. }
    rewrite Hnames in Habs. by apply elem_of_nil in Habs.
  - intros Hnone.
    assert (index vc = []) as Hnames.
    { apply elem_of_nil_inv. intros s Hs. apply Hin in Hs. unfold successes in Hs.
      apply list_elem_of_fmap in Hs as (r & _ & Hr).
      apply list_elem_of_filter in Hr as [Hc Hr]. by apply (Hnone r). }
    split; [done|]. apply nil_length_inv.
    unfold values. rewrite length_map. unfold index in Hnames.
    by rewrite <- (length_map fst), Hnames.
Qed.

(** X11.  The two pies agree: for a site other than 'ALL', the Success slice
    of the site's own pie has the value of the site's slice in the
    all-sites pie, and is 0 when the site has no slice there. *)
Theorem pie_modes_agree (g : Globals) (s : string) :
  s <> "ALL" ->
  exists names vals title succ fail title',
    (get_pie_chart "ALL" g).1 = Ok (Pie names vals title) /\
    (get_pie_chart s g).1 = Ok (Pie ["Success"; "Failed"] [succ; fail] title') /\
    (forall v, (s, v) ∈ zip names vals -> v = succ) /\
    (s ∉ names -> succ = 0%nat).
Proof.
  intros Hs. eexists _, _, _, _, _, _.
  rewrite get_pie_chart_all, get_pie_chart_site by done.
  split_and!; try done.
  - intros v Hv. unfold index, values in Hv.
    change (zip (map fst ?l) (map snd ?l)) with (zip (l.*1) (l.*2)) in Hv.
    rewrite zip_fst_snd in Hv. apply elem_of_value_counts in Hv as ->.
    rewrite occurrences_prop. unfold successes.
    rewrite (filter_fmap_comm Launch_Site (fun y => y = s)), length_fmap.
    rewrite list_filter_filter. f_equal. apply list_filter_iff. intros r. tauto.
  - intros Hno. rewrite elem_of_index_value_counts in Hno.
    apply length_zero_iff_nil, elem_of_nil_inv. intros r Hr.
    apply list_elem_of_filter in Hr as [[Hc Hsite] Hr]. apply Hno.
    unfold successes. subst s. apply list_elem_of_fmap_2.
    by apply list_elem_of_filter.
Qed.

Lemma pie_modes_agree_witness :
  exists names vals title succ fail title',
    (get_pie_chart "ALL" sample_globals).1 = Ok (Pie names vals title) /\
    (get_pie_chart "KSC LC-39A" sample_globals).1
      = Ok (Pie ["Success"; "Failed"] [succ; fail] title') /\
    (forall v, ("KSC LC-39A", v) ∈ zip names vals -> v = succ) /\
    ("KSC LC-39A" ∉ names -> succ = 0%nat).
Proof.
  apply (pie_modes_agree sample_globals "KSC LC-39A"). discriminate.
Defined.

Lemma option_values (l : list string) :
  ((value <$> [mkOption "All Sites" "ALL"])
   ++ (value <$> map (fun site => mkOption site site) l))%list
  = "ALL" :: l.
Proof.
  change (map ?f ?k) with (f <$> k). rewrite <- list_fmap_compose.
  simpl. f_equal. induction l as [|x l IH]; [done|].
  by rewrite fmap_cons, IH.
Qed.

Lemma option_labels (l : list string) :
  ((label <$> [mkOption "All Sites" "ALL"])
   ++ (label <$> map (fun site => mkOption site site) l))%list
  = "All Sites" :: l.
Proof.
  change (map ?f ?k) with (f <$> k). rewrite <- list_fmap_compose.
  simpl. f_equal. induction l as [|x l IH]; [done|].
  by rewrite fmap_cons, IH.
Qed.

(** X12.  The dropdown offers 'ALL' first and then every launch site of the
    table once, in the order the table has them, each labelled with its
    own name.  Its values are pairwise distinct exactly when no row has a
    launch site called 'ALL'. *)
Theorem site_options_cover (df : DataFrame) :
  value <$> site_options df = "ALL" :: unique_sites df /\
  label <$> site_options df = "All Sites" :: unique_sites df /\
  NoDup (unique_sites df) /\
  (forall s, s ∈ unique_sites df <-> exists r, r ∈ df /\ Launch_Site r = s) /\
  unique_sites df `sublist_of` (Launch_Site <$> df) /\
  (NoDup (value <$> site_options df) <->
   forall r, r ∈ df -> Launch_Site r <> "ALL").
Proof.
  assert (forall s, s ∈ unique_sites df <-> exists r, r ∈ df /\ Launch_Site r = s)
    as Hin.
  { intros s. unfold unique_sites, column. rewrite elem_of_unique.
    change (map Launch_Site df) with (Launch_Site <$> df).
    rewrite list_elem_of_fmap. split; intros (r & ? & ?); eauto. }
  assert (value <$> site_options df = "ALL" :: unique_sites df) as Hval.
  { unfold site_options. rewrite fmap_app. apply option_values. }
  split_and!; try done.
  - unfold site_options. rewrite fmap_app. apply option_labels.
  - apply NoDup_unique.
  - apply unique_sublist.
  - rewrite Hval, NoDup_cons, Hin. split.
    + intros [Hno _] r Hr Hsite. apply Hno. eauto.
    + intros Hno. split; [|apply NoDup_unique].
      intros (r & Hr & Hsite). by apply (Hno r).
Qed.

(** X13.  Every site the dropdown offers has rows: on a table of binary
    outcomes, the pie of an offered site (any option but 'ALL') counts at
    least one launch. *)
Theorem offered_site_has_rows (df : DataFrame) (o : DropdownOption) :
  o ∈ site_options df -> value o <> "ALL" ->
  Forall (fun r => class r = 0 \/ class r = 1) df ->
  exists succ fail title,
    (get_pie_chart (value o) (mkGlobals df)).1
      = Ok (Pie ["Success"; "Failed"] [succ; fail] title) /\
    (1 <= succ + fail)%nat.
Proof.
  intros Ho Hne Hbin. eexists _, _, _. rewrite get_pie_chart_site by done.
  split; [done|]. simpl.
  rewrite (DashboardSpec.outcome_counts_total (value o) df Hbin).
  assert (value o ∈ unique_sites df) as Hsite.
  { unfold site_options in Ho. apply elem_of_app in Ho as [Ho|Ho].
    - apply list_elem_of_singleton in Ho. by subst o.
    - change (map ?f ?l) with (f <$> l) in Ho.
      apply list_elem_of_fmap in Ho as (site & -> & Hsite). done. }
  unfold unique_sites, column in Hsite. rewrite elem_of_unique in Hsite.
  change (map Launch_Site df) with (Launch_Site <$> df) in Hsite.
  apply list_elem_of_fmap in Hsite as (r & Hr & Hin).
  assert (r ∈ filter (fun r => Launch_Site r = value o) df) as Hmem
      by by apply list_elem_of_filter.
  destruct (filter (fun r => Launch_Site r = value o) df);
    [by apply elem_of_nil in Hmem|simpl; lia].
Qed.

Lemma offered_site_has_rows_witness :
  exists succ fail title,
    (get_pie_chart (value (mkOption "VAFB SLC-4E" "VAFB SLC-4E"))
                   (mkGlobals sample_table)).1
      = Ok (Pie ["Success"; "Failed"] [succ; fail] title) /\
    (1 <= succ + fail)%nat.
Proof.
  apply (offered_site_has_rows sample_table (mkOption "VAFB SLC-4E" "VAFB SLC-4E")).
  - vm_compute. apply list_elem_of_further, list_elem_of_further, list_elem_of_here.
  - discriminate.
  - cbn. repeat (constructor; [cbn; lia|]). constructor.
Defined.

(** X14.  [min_payload] and [max_payload] bound the payload masses that are
    present: every such mass lies between them.  When no payload mass is
    present (an empty table included) both are NaN. *)
Theorem payload_bounds (df : DataFrame) :
  (forall r, r ∈ df -> isna (Payload_Mass r) = false ->
             PrimFloat.leb (min_payload df) (Payload_Mass r) = true /\
             PrimFloat.leb (Payload_Mass r) (max_payload df) = true) /\
  ((forall r, r ∈ df -> isna (Payload_Mass r) = true) ->
   isna (min_payload df) = true /\ isna (max_payload df) = true).
Proof.
  unfold min_payload, max_payload, column. split.
  - intros r Hr Hp.
    assert (Payload_Mass r ∈ map Payload_Mass df) as Hin
        by by apply (list_elem_of_fmap_2 Payload_Mass).
    split; [by apply series_min_lower|by apply series_max_upper].
  - intros Hnone.
    assert (dropna (map Payload_Mass df) = []) as Hdrop.
    { apply elem_of_nil_inv. intros v Hv. apply elem_of_dropna in Hv as [Hv Hp].
      change (map Payload_Mass df) with (Payload_Mass <$> df) in Hv.
      apply list_elem_of_fmap in Hv as (r & -> & Hr).
      rewrite (Hnone r Hr) in Hp. discriminate. }
    unfold series_min, series_max. by rewrite Hdrop.
Qed.

End DashboardMore.


(* ===================================================================== *)
(** ** Further properties of the port selection                           *)
(* ===================================================================== *)

Module StartupMore.
Import Startup StartupTerms MoreTerms StartupFacts.

Lemma probes_connects (l : list Z) : probes (ConnectEx <$> l) = l.
Proof.
  unfold probes. induction l as [|q l IH]; [done|]. csimpl. by rewrite IH.
Qed.

Lemma probes_prints (l : list string) : probes (Print <$> l) = [].
Proof.
  unfold probes. induction l as [|q l IH]; [done|]. csimpl. by rewrite IH.
Qed.

Lemma probes_connect (q : Z) (t : list Event) :
  probes (ConnectEx q :: t) = q :: probes t.
Proof. reflexivity. Qed.

Lemma probes_print (line : string) (t : list Event) :
  probes (Print line :: t) = probes t.
Proof. reflexivity. Qed.

Lemma probes_app (t1 t2 : list Event) :
  probes (t1 ++ t2)%list = (probes t1 ++ probes t2)%list.
Proof. apply omap_app. Qed.

(** X15.  Run without an argument, the block starts the server only on a port
    it found free, and only after finding every port before it in
    8050, 8051, ..., 8055 occupied: the port is the lowest free one. *)
Theorem started_port_lowest_free (int : string -> option Z)
        (connect_ex : Z -> Z) (argv : list string) (p : Z) :
  (length argv <= 1)%nat ->
  (main int connect_ex argv).2 = AppRun p ->
  exists busy rest,
    [8050; 8051; 8052; 8053; 8054; 8055] = (busy ++ p :: rest)%list /\
    Forall (occupied connect_ex) busy /\ ~ occupied connect_ex p.
Proof.
  intros Hlen Hrun.
  destruct (decide (occupied connect_ex 8050)) as [H8050|H8050].
  - destruct (first_free_split connect_ex alternates)
      as [Hall|(busy & q & rest & Hsplit & Hbusy & Hfree)].
    + rewrite main_none_free in Hrun by (done || by constructor). discriminate.
    + rewrite (main_alternate int connect_ex argv busy q rest) in Hrun by done.
      injection Hrun as ->. exists (8050 :: busy), rest. split_and!; try done.
      * unfold alternates in Hsplit. by rewrite <- app_comm_cons, <- Hsplit.
      * by constructor.
  - rewrite main_default_free in Hrun by done. injection Hrun as <-.
    exists [], alternates. split_and!; try done.
Qed.

Lemma started_port_lowest_free_witness :
  exists busy rest,
    [8050; 8051; 8052; 8053; 8054; 8055] = (busy ++ 8053 :: rest)%list /\
    Forall (occupied three_taken) busy /\ ~ occupied three_taken 8053.
Proof.
  apply (started_port_lowest_free int_ascii three_taken ["spacex-dash-app.py"]).
  - simpl. lia.
  - reflexivity.
Defined.

(** X16.  Whatever the command line, the ports the block asks about are an
    initial part of 8050, 8051, ..., 8055: it asks in ascending order,
    about no port twice, about at most six, and about none outside that
    list; and it asks about none at all when an argument is given. *)
Theorem probes_prefix (int : string -> option Z) (connect_ex : Z -> Z)
        (argv : list string) :
  probes (main int connect_ex argv).1
  `prefix_of` [8050; 8051; 8052; 8053; 8054; 8055] /\
  ((1 < length argv)%nat -> probes (main int connect_ex argv).1 = []).
Proof.
  destruct (argv !! 1%nat) as [arg|] eqn:Harg.
  { destruct (int arg) as [port|] eqn:Hint.
    - rewrite (main_parsed int connect_ex argv arg port) by done.
      split; [apply prefix_nil|done].
    - rewrite (main_unparsable int connect_ex argv arg) by done.
      split; [apply prefix_nil|done]. }
  apply lookup_ge_None in Harg. split; [|lia].
  destruct (decide (occupied connect_ex 8050)) as [H8050|H8050].
  2:{ rewrite main_default_free by (done || lia). by eexists. }
  destruct (first_free_split connect_ex alternates)
    as [Hall|(busy & q & rest & Hsplit & Hbusy & Hfree)].
  - rewrite main_none_free by (done || lia || by constructor). cbn [fst].
    rewrite probes_connect, probes_print, probes_app, probes_connects,
      probes_prints, app_nil_r.
    done.
  - rewrite (main_alternate int connect_ex argv busy q rest) by (done || lia).
    cbn [fst].
    rewrite probes_connect, probes_print, probes_app, probes_connects,
      probes_connect, probes_print.
    apply prefix_cons. unfold alternates in Hsplit. rewrite Hsplit.
    exists rest. by rewrite <- app_assoc.
Qed.

(** X17.  Run without an argument while 8050 is free, the block asks about 8050
    only, prints nothing and starts the server on 8050. *)
Theorem default_port_when_free (int : string -> option Z)
        (connect_ex : Z -> Z) (argv : list string) :
  (length argv <= 1)%nat -> ~ occupied connect_ex 8050 ->
  (main int connect_ex argv).2 = AppRun 8050 /\
  probes (main int connect_ex argv).1 = [8050] /\
  printed (main int connect_ex argv).1 = [].
Proof. intros Hlen Hfree. by rewrite main_default_free. Qed.

Lemma default_port_when_free_witness :
  (main int_ascii none_taken ["spacex-dash-app.py"]).2 = AppRun 8050 /\
  probes (main int_ascii none_taken ["spacex-dash-app.py"]).1 = [8050] /\
  printed (main int_ascii none_taken ["spacex-dash-app.py"]).1 = [].
Proof.
  apply (default_port_when_free int_ascii none_taken ["spacex-dash-app.py"]).
  - simpl. lia.
  - discriminate.
Defined.

End StartupMore.
